(** * hosts: a shallow embedding of hosts.go

    The utility reads a hosts file into a slice of [interface{}] values
    (a trimmed row of text, or a [Host] struct), edits that slice and
    renders it back.  Go strings are byte strings; they are modelled by
    [string] (a list of 8-bit characters).  A Go slice is modelled by a
    list; where the code indexes or re-slices, the model does the same
    with lookup, [take] and [drop], and [None] stands for the run-time
    panic of an index out of range.  Slices that share an array are
    modelled by values where no shared cell is written after the sharing
    starts; the comments say so where it matters. *)

From Stdlib Require Import Ascii NArith.
From stdpp Require Import base option list strings gmap.

Set Warnings "-register-all,-clear-no-such-hyp".

(** ** Bytes and strings of the Go library *)

Definition TAB : string := String "009"%char "".
Definition NL : string := String "010"%char "".
Definition SP : string := String " "%char "".

Definition byteval (c : ascii) : N := N_of_ascii c.

(** [asciiSpace] of package strings: '\t', '\n', '\v', '\f', '\r', ' '. *)
Definition asciiSpace (c : ascii) : bool :=
  let b := byteval c in
  ((b =? 9) || (b =? 10) || (b =? 11) || (b =? 12) || (b =? 13) || (b =? 32))%N.

(** The two-byte encodings of U+0085 and U+00A0. *)
Definition space2 (c0 c1 : ascii) : bool :=
  let b0 := byteval c0 in
  let b1 := byteval c1 in
  ((b0 =? 194) && ((b1 =? 133) || (b1 =? 160)))%N.

(** The three-byte encodings of U+1680, U+2000..U+200A, U+2028, U+2029,
    U+202F, U+205F and U+3000. *)
Definition space3 (c0 c1 c2 : ascii) : bool :=
  let b0 := byteval c0 in
  let b1 := byteval c1 in
  let b2 := byteval c2 in
  (((b0 =? 225) && (b1 =? 154) && (b2 =? 128))
   || ((b0 =? 226) && (b1 =? 128)
       && (((128 <=? b2) && (b2 <=? 138)) || (b2 =? 168) || (b2 =? 169) || (b2 =? 175)))
   || ((b0 =? 226) && (b1 =? 129) && (b2 =? 159))
   || ((b0 =? 227) && (b1 =? 128) && (b2 =? 128)))%N.

(** Width in bytes of the white-space rune ([unicode.IsSpace]) encoded at
    the head of [s], or 0 when [s] does not start with one.  Every such
    encoding starts with an ASCII byte or a UTF-8 lead byte and continues
    with continuation bytes only, so a white-space rune can start neither
    inside a valid rune nor inside another white-space rune: scanning the
    bytes with this test sees the same white space as Go's rune decoder,
    forwards and backwards, also on invalid UTF-8. *)
Definition space_width (s : string) : nat :=
  match s with
  | String c0 r0 =>
      if asciiSpace c0 then 1
      else match r0 with
           | String c1 r1 =>
               if space2 c0 c1 then 2
               else match r1 with
                    | String c2 _ => if space3 c0 c1 c2 then 3 else 0
                    | EmptyString => 0
                    end
           | EmptyString => 0
           end
  | EmptyString => 0
  end.

(** [strings.HasPrefix], for a one-byte prefix. *)
Definition HasPrefix (s : string) (c : ascii) : bool :=
  match s with
  | String c0 _ => bool_decide (c0 = c)
  | EmptyString => false
  end.

(** [strings.Split], for a one-byte separator: the pieces between the
    separators, one more piece than there are separators. *)
Fixpoint Split (s : string) (sep : ascii) : list string :=
  match s with
  | EmptyString => [EmptyString]
  | String c r =>
      if bool_decide (c = sep) then EmptyString :: Split r sep
      else match Split r sep with
           | piece :: pieces => String c piece :: pieces
           | [] => [String c EmptyString]
           end
  end.

(** [strings.Join]. *)
Fixpoint Join (elems : list string) (sep : string) : string :=
  match elems with
  | [] => EmptyString
  | [e] => e
  | e :: rest => e +:+ sep +:+ Join rest sep
  end.

(** Leading white space removed ([strings.TrimLeftFunc] with
    [unicode.IsSpace]). *)
Fixpoint trimLeft (s : string) : string :=
  match s with
  | EmptyString => EmptyString
  | String _ r =>
      match space_width s with
      | 0 => s
      | 1 => trimLeft r
      | 2 => match r with String _ r2 => trimLeft r2 | EmptyString => s end
      | _ => match r with String _ (String _ r3) => trimLeft r3 | _ => s end
      end
  end.

(** [s] is a sequence of white-space runes. *)
Fixpoint all_space (s : string) : bool :=
  match s with
  | EmptyString => true
  | String _ r =>
      match space_width s with
      | 0 => false
      | 1 => all_space r
      | 2 => match r with String _ r2 => all_space r2 | EmptyString => false end
      | _ => match r with String _ (String _ r3) => all_space r3 | _ => false end
      end
  end.

(** Trailing white space removed ([strings.TrimRightFunc] with
    [unicode.IsSpace]): the string is cut where the rest of it is white
    space only. *)
Fixpoint trimRight (s : string) : string :=
  match s with
  | EmptyString => EmptyString
  | String c r => if all_space s then EmptyString else String c (trimRight r)
  end.

(** [strings.TrimSpace]. *)
Definition TrimSpace (s : string) : string := trimRight (trimLeft s).

Definition flush (cur : string) : list string :=
  match cur with
  | EmptyString => []
  | _ => [cur]
  end.

(** [strings.Fields]: the maximal runs of bytes between white-space runes.
    [cur] is the field being read. *)
Fixpoint Fields_go (cur : string) (s : string) : list string :=
  match s with
  | EmptyString => flush cur
  | String c r =>
      match space_width s with
      | 0 => Fields_go (cur +:+ String c EmptyString) r
      | 1 => flush cur ++ Fields_go EmptyString r
      | 2 => match r with
             | String _ r2 => flush cur ++ Fields_go EmptyString r2
             | EmptyString => flush cur
             end
      | _ => match r with
             | String _ (String _ r3) => flush cur ++ Fields_go EmptyString r3
             | _ => flush cur
             end
      end
  end.

Definition Fields (s : string) : list string := Fields_go EmptyString s.

(** ** The data model *)

(** [type Host struct]. *)
Record Host := mkHost { IP : string; Hostnames : list string }.

(** An element of [[]interface{}]: the program stores strings and [Host]
    values in it, and [cmdRemoveIP] stores a slice. *)
Inductive Entry :=
| EStr (row : string)
| EHost (host : Host)
| ESlice (items : list Entry).

(** ** ReadHosts *)

(** One turn of the loop over the rows; [hosts] is [*hosts]. *)
Definition ReadHosts_row (hosts : list Entry) (row : string) : list Entry :=
  let row := TrimSpace row in
  if HasPrefix row "#"%char || bool_decide (row = EmptyString) then
    hosts ++ [EStr row]
  else
    let fields := Fields row in
    if bool_decide (length fields < 2) then hosts ++ [EStr row]
    else match fields with
         | ip :: hostnames => hosts ++ [EHost (mkHost ip hostnames)]
         | [] => hosts
         end.

(** [contents] is what [ioutil.ReadFile] returned (a failed read ends the
    process in [log.Fatal] before any row is seen). *)
Definition ReadHosts (contents : string) (hosts : list Entry) : list Entry :=
  foldl ReadHosts_row hosts (Split contents "010"%char).

(** ** RenderHosts *)

Definition RenderHosts_step (buf : string) (host : Entry) : string :=
  match host with
  | EStr v => buf +:+ v
  | EHost v =>
      let hostnames := Join (Hostnames v) SP in
      let row := IP v +:+ TAB +:+ hostnames +:+ NL in
      buf +:+ row
  | ESlice _ => buf
  end.

Definition RenderHosts (hosts : list Entry) : string :=
  foldl RenderHosts_step EmptyString hosts.

Definition RenderHostsWithoutComments_step (buf : string) (host : Entry) : string :=
  match host with
  | EHost v =>
      let hostnames := Join (Hostnames v) SP in
      let row := IP v +:+ TAB +:+ hostnames +:+ NL in
      buf +:+ row
  | _ => buf
  end.

Definition RenderHostsWithoutComments (hosts : list Entry) : string :=
  foldl RenderHostsWithoutComments_step EmptyString hosts.

(** ** uniqueStrings *)

(** The loop of [uniqueStrings] on the slice [s], which it overwrites in
    place: [n] elements are still to visit, [i] is the index of the range
    loop, [seen] the map used as a set, [j] the write index.  The element
    is read from the array as it is at that turn. *)
Fixpoint uniqueStrings_loop (n i : nat) (seen : gset string) (s : list string)
    (j : nat) : option (list string) :=
  match n with
  | 0 => Some (take j s)
  | S n' =>
      v ← s !! i;
      if bool_decide (v ∈ seen) then uniqueStrings_loop n' (S i) seen s j
      else if bool_decide (j < length s)
           then uniqueStrings_loop n' (S i) ({[v]} ∪ seen) (<[j:=v]> s) (S j)
           else None
  end.

Definition uniqueStrings (s : list string) : option (list string) :=
  uniqueStrings_loop (length s) 0 ∅ s 0.

(** ** removeHostname *)

(** The range loop of [removeHostname]: [removeIndex] ends as the index of
    the last element equal to [remove], or stays -1. *)
Fixpoint removeHostname_scan (i : Z) (hostnames : list string) (remove : string)
    (removeIndex : Z) : Z :=
  match hostnames with
  | [] => removeIndex
  | hostname :: rest =>
      removeHostname_scan (i + 1) rest remove
        (if bool_decide (hostname = remove) then i else removeIndex)
  end.

Definition removeHostname (hostnames : list string) (remove : string) : list string :=
  let removeIndex := removeHostname_scan 0 hostnames remove (-1) in
  if bool_decide (removeIndex ≠ (-1)%Z) then
    take (Z.to_nat removeIndex) hostnames ++ drop (Z.to_nat (removeIndex + 1)) hostnames
  else hostnames.

(** ** The commands, on the slice that ReadHosts filled *)

(** The range loop of [cmdAddHost]: [rest] is what is left to visit, [i]
    its index in [hosts].  The result carries [updated]. *)
Fixpoint addHost_range (i : nat) (rest hosts : list Entry) (ip : string)
    (hostnames : list string) : option (list Entry * bool) :=
  match rest with
  | [] => Some (hosts, false)
  | EHost host :: rest' =>
      if bool_decide (IP host = ip) then
        names ← uniqueStrings (Hostnames host ++ hostnames);
        Some (<[i := EHost (mkHost (IP host) names)]> hosts, true)
      else addHost_range (S i) rest' hosts ip hostnames
  | _ :: rest' => addHost_range (S i) rest' hosts ip hostnames
  end.

Definition addHost (hosts : list Entry) (ip : string) (hostnames : list string)
    : option (list Entry) :=
  '(hosts', updated) ← addHost_range 0 hosts hosts ip hostnames;
  if updated : bool then Some hosts'
  else names ← uniqueStrings hostnames;
       Some (hosts' ++ [EHost (mkHost ip names)]).

(** The inner loop of [cmdResolve]. *)
Fixpoint resolve_names (hostnames : list string) (searchHostname : string) : bool :=
  match hostnames with
  | [] => false
  | hostname :: rest =>
      if bool_decide (hostname = searchHostname) then true
      else resolve_names rest searchHostname
  end.

(** The outer loop of [cmdResolve]: the IP handed to [fmt.Println], if any. *)
Fixpoint resolve (hosts : list Entry) (searchHostname : string) : option string :=
  match hosts with
  | [] => None
  | EHost host :: rest =>
      if resolve_names (Hostnames host) searchHostname then Some (IP host)
      else resolve rest searchHostname
  | _ :: rest => resolve rest searchHostname
  end.

(** The loop of [cmdRemoveIP], [i] running from [n - 1] down to 0.  The
    call [append(hosts[:i], hosts[i+1:])] has no [...]: it stores the slice
    [hosts[i+1:]] as the one element at index [i], and the result has
    length [i + 1].  The cells from [i + 1] on are not written again, so
    the stored slice keeps its elements. *)
Fixpoint removeIP_loop (n : nat) (hosts : list Entry) (ip : string)
    : option (list Entry) :=
  match n with
  | 0 => Some hosts
  | S i =>
      e ← hosts !! i;
      match e with
      | EHost host =>
          if bool_decide (IP host = ip) then
            removeIP_loop i (take i hosts ++ [ESlice (drop (S i) hosts)]) ip
          else removeIP_loop i hosts ip
      | _ => removeIP_loop i hosts ip
      end
  end.

Definition removeIP (hosts : list Entry) (ip : string) : option (list Entry) :=
  removeIP_loop (length hosts) hosts ip.

(** The loop of [cmdRemoveHost], [i] running from [n - 1] down to 0. *)
Fixpoint removeHostnames_loop (n : nat) (hosts : list Entry) (hostnames : list string)
    : option (list Entry) :=
  match n with
  | 0 => Some hosts
  | S i =>
      e ← hosts !! i;
      match e with
      | EHost host =>
          let names := foldl removeHostname (Hostnames host) hostnames in
          if bool_decide (0 < length names) then
            removeHostnames_loop i (<[i := EHost (mkHost (IP host) names)]> hosts) hostnames
          else removeHostnames_loop i (take i hosts ++ drop (S i) hosts) hostnames
      | _ => removeHostnames_loop i hosts hostnames
      end
  end.

Definition removeHostnames (hosts : list Entry) (hostnames : list string)
    : option (list Entry) :=
  removeHostnames_loop (length hosts) hosts hostnames.

(** The commands from file contents to what [WriteHosts] writes (to the
    file, or to the console under the debug flag) or what is printed. *)
Definition cmdAddHost (contents ip : string) (hostnames : list string) : option string :=
  RenderHosts <$> addHost (ReadHosts contents []) ip hostnames.

Definition cmdRemoveIP (contents ip : string) : option string :=
  RenderHosts <$> removeIP (ReadHosts contents []) ip.

Definition cmdRemoveHost (contents : string) (hostnames : list string) : option string :=
  RenderHosts <$> removeHostnames (ReadHosts contents []) hostnames.

Definition cmdResolve (contents searchHostname : string) : string :=
  match resolve (ReadHosts contents []) searchHostname with
  | Some ip => ip +:+ NL
  | None => EmptyString
  end.

Definition cmdList (contents : string) : string :=
  RenderHostsWithoutComments (ReadHosts contents []).

(** ** Specification-level definitions *)

(** Duplicates removed, the first occurrence of each string kept in its
    place. *)
Fixpoint dedup_first (l : list string) : list string :=
  match l with
  | [] => []
  | x :: l' => x :: filter (λ y, y ≠ x) (dedup_first l')
  end.

(** The same, skipping what is in [seen] already. *)
Fixpoint dedup_acc (seen : gset string) (l : list string) : list string :=
  match l with
  | [] => []
  | x :: l' =>
      if bool_decide (x ∈ seen) then dedup_acc seen l'
      else x :: dedup_acc ({[x]} ∪ seen) l'
  end.

(** What the loop of [cmdRemoveIP] does to one entry, given the processed
    rest of the slice. *)
Definition removeIP_step (ip : string) (e : Entry) (rest : list Entry) : list Entry :=
  match e with
  | EHost host => if bool_decide (IP host = ip) then [ESlice rest] else e :: rest
  | _ => e :: rest
  end.

(** What the loop of [cmdRemoveHost] does to one entry. *)
Definition removeHostnames_step (hostnames : list string) (e : Entry)
    (rest : list Entry) : list Entry :=
  match e with
  | EHost host =>
      let names := foldl removeHostname (Hostnames host) hostnames in
      if bool_decide (0 < length names) then EHost (mkHost (IP host) names) :: rest
      else rest
  | _ => e :: rest
  end.

(** Every Record of the slice has a hostname. *)
Definition records_nonempty (hosts : list Entry) : Prop :=
  ∀ host, EHost host ∈ hosts → Hostnames host ≠ [].

(** The hostnames of every Record of the slice are pairwise distinct. *)
Definition records_distinct (hosts : list Entry) : Prop :=
  ∀ host, EHost host ∈ hosts → NoDup (Hostnames host).

(** No Record of the slice has the IP. *)
Definition no_ip (ip : string) (hosts : list Entry) : Prop :=
  ∀ host, EHost host ∈ hosts → IP host ≠ ip.

(** No Record of the slice has the hostname. *)
Definition no_hostname (name : string) (hosts : list Entry) : Prop :=
  ∀ host, EHost host ∈ hosts → name ∉ Hostnames host.

(** The entry that the spec assigns to one row of the text. *)
Definition parse_row (row : string) : Entry :=
  let r := TrimSpace row in
  if bool_decide (r = EmptyString) || HasPrefix r "#"%char then EStr r
  else match Fields r with
       | ip :: name :: names => EHost (mkHost ip (name :: names))
       | _ => EStr r
       end.

(** What the renderer writes for one entry. *)
Definition render_entry (e : Entry) : string :=
  match e with
  | EStr v => v
  | EHost v => IP v +:+ TAB +:+ Join (Hostnames v) SP +:+ NL
  | ESlice _ => EmptyString
  end.

(** The strings of a list, one after the other. *)
Fixpoint concat_strings (l : list string) : string :=
  match l with
  | [] => EmptyString
  | x :: l' => x +:+ concat_strings l'
  end.

(** The byte occurs in the string. *)
Fixpoint has_byte (c : ascii) (s : string) : bool :=
  match s with
  | EmptyString => false
  | String c0 r => bool_decide (c0 = c) || has_byte c r
  end.

(** No white-space rune starts at any position of the string. *)
Fixpoint nospace (s : string) : bool :=
  match s with
  | EmptyString => true
  | String _ r => bool_decide (space_width s = 0) && nospace r
  end.

(** A string that is not empty and holds no white space: what
    [strings.Fields] yields ([Fields_tokens] below). *)
Definition token (t : string) : bool :=
  negb (bool_decide (t = EmptyString)) && nospace t.

(** A Record whose rendered row reads back as itself: the IP and the
    hostnames are tokens, the IP does not start a comment, and there is a
    hostname. *)
Definition canonical (host : Host) : bool :=
  token (IP host) && negb (HasPrefix (IP host) "#"%char)
  && negb (bool_decide (Hostnames host = [])) && forallb token (Hostnames host).

(** The text of a file made of rows as [RenderHosts] writes Records: IP,
    tab, hostnames separated by single spaces, newline. *)
Definition render_rows (records : list Host) : string :=
  concat_strings ((λ host, render_entry (EHost host)) <$> records).

(** No white-space rune starts in [cur] when [s] follows it. *)
Fixpoint clean_in (cur s : string) : Prop :=
  match cur with
  | EmptyString => True
  | String _ b => space_width (cur +:+ s) = 0 ∧ clean_in b s
  end.

(** The string is empty or starts with an ASCII byte. *)
Definition ascii_led (rest : string) : Prop :=
  match rest with
  | EmptyString => True
  | String d _ => (byteval d < 128)%N
  end.

(** A boolean test on byte values, as a proposition for [lia]. *)
Ltac bool_to_prop H :=
  repeat first
    [ rewrite andb_true_iff in H | rewrite orb_true_iff in H
    | rewrite N.eqb_eq in H | rewrite N.leb_le in H ].

(** The Records of the slice, in order. *)
Fixpoint records_of (hosts : list Entry) : list Host :=
  match hosts with
  | [] => []
  | EHost host :: rest => host :: records_of rest
  | _ :: rest => records_of rest
  end.

(** What [cmdRemoveHost] makes of one entry: a Record loses the names, and
    goes when none is left; any other entry stays. *)
Definition removeHostnames_entry (hostnames : list string) (e : Entry) : option Entry :=
  match e with
  | EHost host =>
      let names := foldl removeHostname (Hostnames host) hostnames in
      if bool_decide (0 < length names) then Some (EHost (mkHost (IP host) names))
      else None
  | _ => Some e
  end.

(** The row of an entry, as [RenderHosts] writes it, without the newline
    of a Record. *)
Definition entry_row (e : Entry) : string :=
  match e with
  | EStr v => v
  | EHost v => IP v +:+ TAB +:+ Join (Hostnames v) SP
  | ESlice _ => EmptyString
  end.

(** The slice holds Records and empty strings only: the file had no
    comment and no row of a single field. *)
Definition only_records (hosts : list Entry) : Prop :=
  ∀ e, e ∈ hosts → e = EStr EmptyString ∨ ∃ host, e = EHost host.

(** The file of the specification's scenario. *)
Definition scenario : string :=
  "# comment" +:+ NL +:+ "127.0.0.1 localhost" +:+ NL
  +:+ "10.0.0.5 foo.test bar.test" +:+ NL.

(** ** The library models on examples *)

Example ex_fields :
  Fields ("  1.2.3.4" +:+ TAB +:+ "a  b " +:+ String "194"%char (String "160"%char "c"))
  = ["1.2.3.4"; "a"; "b"; "c"].
Proof. vm_compute. reflexivity. Qed.

Example ex_trim :
  TrimSpace (String "226"%char (String "128"%char (String "128"%char " x y " +:+ TAB)))
  = "x y".
Proof. vm_compute. reflexivity. Qed.

Example ex_split : Split ("a" +:+ NL +:+ NL +:+ "b" +:+ NL) "010"%char = ["a"; ""; "b"; ""].
Proof. vm_compute. reflexivity. Qed.

Example ex_read :
  ReadHosts ("# c" +:+ NL +:+ "1.1.1.1 a  b" +:+ NL) [] =
  [EStr "# c"; EHost (mkHost "1.1.1.1" ["a"; "b"]); EStr ""].
Proof. vm_compute. reflexivity. Qed.

(** ** The commands on the file of the specification's scenario *)

Example scenario_read :
  ReadHosts scenario [] =
  [EStr "# comment"; EHost (mkHost "127.0.0.1" ["localhost"]);
   EHost (mkHost "10.0.0.5" ["foo.test"; "bar.test"]); EStr ""].
Proof. vm_compute. reflexivity. Qed.

Example scenario_add :
  cmdAddHost scenario "10.0.0.5" ["baz.test"] =
  Some ("# comment127.0.0.1" +:+ TAB +:+ "localhost" +:+ NL
        +:+ "10.0.0.5" +:+ TAB +:+ "foo.test bar.test baz.test" +:+ NL).
Proof. vm_compute. reflexivity. Qed.

Example scenario_rmhost :
  cmdRemoveHost scenario ["bar.test"] =
  Some ("# comment127.0.0.1" +:+ TAB +:+ "localhost" +:+ NL
        +:+ "10.0.0.5" +:+ TAB +:+ "foo.test" +:+ NL).
Proof. vm_compute. reflexivity. Qed.

Example scenario_rmip : cmdRemoveIP scenario "127.0.0.1" = Some "# comment".
Proof. vm_compute. reflexivity. Qed.

Example scenario_resolve : cmdResolve scenario "foo.test" = "10.0.0.5" +:+ NL.
Proof. vm_compute. reflexivity. Qed.

Example scenario_list :
  cmdList scenario =
  "127.0.0.1" +:+ TAB +:+ "localhost" +:+ NL
  +:+ "10.0.0.5" +:+ TAB +:+ "foo.test bar.test" +:+ NL.
Proof. vm_compute. reflexivity. Qed.

(** ** uniqueStrings removes duplicates, first occurrence kept *)

Lemma dedup_acc_filter seen l :
  dedup_acc seen l = filter (λ y, y ∉ seen) (dedup_first l).
Proof.
  revert seen. induction l as [|x l IH]; intros seen; simpl; [done|].
  case_bool_decide as Hx.
  - rewrite filter_cons_False by (intros Hn; done).
    rewrite list_filter_filter, IH.
    apply list_filter_iff. intros y. split; [|tauto].
    intros Hy. split; [done|]. intros ->. done.
  - rewrite filter_cons_True by done. f_equal.
    rewrite list_filter_filter, IH.
    apply list_filter_iff. intros y.
    rewrite not_elem_of_union, not_elem_of_singleton. tauto.
Qed.

Lemma dedup_acc_empty l : dedup_acc ∅ l = dedup_first l.
Proof.
  rewrite dedup_acc_filter. induction (dedup_first l) as [|x k IH]; [done|].
  rewrite filter_cons_True by set_solver. by rewrite IH.
Qed.

Lemma uniqueStrings_loop_spec (s0 : list string) n i seen out :
  i + n = length s0 →
  length out ≤ i →
  (∀ x, x ∈ seen ↔ x ∈ out) →
  uniqueStrings_loop n i seen (out ++ drop (length out) s0) (length out)
  = Some (out ++ dedup_acc seen (drop i s0)).
Proof.
  revert i seen out. induction n as [|n IH]; intros i seen out Hlen Hj Hseen; simpl.
  - rewrite take_app_length. rewrite drop_ge by lia. simpl. by rewrite app_nil_r.
  - assert (Hi : i < length s0) by lia.
    destruct (lookup_lt_is_Some_2 s0 i Hi) as [v Hv].
    rewrite lookup_app_r by lia. rewrite lookup_drop.
    replace (length out + (i - length out)) with i by lia.
    rewrite Hv. simpl.
    rewrite (drop_S _ _ _ Hv). simpl.
    case_bool_decide as Hin.
    + apply IH; [lia|lia|done].
    + rewrite bool_decide_true by (rewrite length_app, length_drop; lia).
      assert (Hjlt : length out < length s0) by lia.
      destruct (lookup_lt_is_Some_2 s0 _ Hjlt) as [w Hw].
      rewrite (drop_S _ _ _ Hw).
      rewrite insert_app_r_alt by lia.
      replace (length out - length out) with 0 by lia. simpl.
      specialize (IH (S i) ({[v]} ∪ seen) (out ++ [v])).
      rewrite length_app in IH. simpl in IH.
      replace (length out + 1) with (S (length out)) in IH by lia.
      rewrite <- !(assoc_L (++)) in IH. simpl in IH.
      rewrite IH; [done|lia|lia|].
      intros x. rewrite elem_of_union, elem_of_singleton, elem_of_app, list_elem_of_singleton.
      rewrite Hseen. tauto.
Qed.

Lemma uniqueStrings_dedup s : uniqueStrings s = Some (dedup_first s).
Proof.
  unfold uniqueStrings.
  pose proof (uniqueStrings_loop_spec s (length s) 0 ∅ []) as H.
  simpl in H. rewrite drop_0 in H. rewrite H; [|lia|lia|set_solver].
  by rewrite dedup_acc_empty.
Qed.

Lemma dedup_first_elem x l : x ∈ dedup_first l ↔ x ∈ l.
Proof.
  induction l as [|y l IH]; simpl; [done|].
  rewrite !elem_of_cons, list_elem_of_filter, IH.
  destruct (decide (x = y)); naive_solver.
Qed.

Lemma dedup_first_NoDup l : NoDup (dedup_first l).
Proof.
  induction l as [|y l IH]; simpl; [constructor|].
  constructor.
  - rewrite list_elem_of_filter. naive_solver.
  - by apply NoDup_filter.
Qed.

Lemma filter_all_id {A} (P : A → Prop) `{!∀ x, Decision (P x)} (l : list A) :
  (∀ x, x ∈ l → P x) → filter P l = l.
Proof.
  induction l as [|y l IH]; intros Hall; [done|].
  rewrite filter_cons_True by (apply Hall; left).
  f_equal. apply IH. intros x Hx. apply Hall. by right.
Qed.

Lemma filter_all_nil {A} (P : A → Prop) `{!∀ x, Decision (P x)} (l : list A) :
  (∀ x, x ∈ l → ¬ P x) → filter P l = [].
Proof.
  induction l as [|y l IH]; intros Hall; [done|].
  rewrite filter_cons_False by (apply Hall; left).
  apply IH. intros x Hx. apply Hall. by right.
Qed.

Lemma dedup_first_id l : NoDup l → dedup_first l = l.
Proof.
  induction 1 as [|x l Hx Hl IH]; simpl; [done|].
  rewrite IH. f_equal. apply filter_all_id. intros y Hy ->. done.
Qed.

Lemma dedup_first_app l m :
  dedup_first (l ++ m) = dedup_first l ++ filter (λ y, y ∉ l) (dedup_first m).
Proof.
  induction l as [|x l IH]; simpl.
  - symmetry. apply filter_all_id. intros y _. set_solver.
  - f_equal. rewrite IH, filter_app. f_equal.
    rewrite list_filter_filter. apply list_filter_iff. intros y. set_solver.
Qed.

(** Adding the same names again changes nothing. *)
Lemma dedup_first_again l m :
  dedup_first (dedup_first (l ++ m) ++ m) = dedup_first (l ++ m).
Proof.
  rewrite (dedup_first_app (dedup_first (l ++ m)) m).
  rewrite (dedup_first_id _ (dedup_first_NoDup _)).
  rewrite filter_all_nil; [by rewrite app_nil_r|].
  intros y Hy Hn. apply Hn. apply dedup_first_elem.
  apply (proj1 (dedup_first_elem _ _)) in Hy. apply elem_of_app. by right.
Qed.

(** ** removeHostname removes the last occurrence *)

Lemma removeHostname_scan_absent i l remove idx :
  remove ∉ l → removeHostname_scan i l remove idx = idx.
Proof.
  revert i idx. induction l as [|x l IH]; intros i idx Hn; simpl; [done|].
  apply not_elem_of_cons in Hn as [Hx Hl].
  rewrite bool_decide_false by done. by apply IH.
Qed.

Lemma removeHostname_scan_last i l1 l2 remove idx :
  remove ∉ l2 →
  removeHostname_scan i (l1 ++ remove :: l2) remove idx = (i + Z.of_nat (length l1))%Z.
Proof.
  intros Hn. revert i idx. induction l1 as [|x l1 IH]; intros i idx; simpl.
  - rewrite bool_decide_true by done.
    rewrite removeHostname_scan_absent by done. lia.
  - rewrite IH. lia.
Qed.

Lemma removeHostname_absent l remove : remove ∉ l → removeHostname l remove = l.
Proof.
  intros Hn. unfold removeHostname.
  rewrite removeHostname_scan_absent by done.
  by rewrite bool_decide_false by (intros H; by apply H).
Qed.

Lemma drop_past_middle {A} (l1 l2 : list A) x :
  drop (S (length l1)) (l1 ++ x :: l2) = l2.
Proof. induction l1 as [|y l1 IH]; simpl; [by rewrite drop_0|done]. Qed.

Lemma removeHostname_split l1 l2 remove :
  remove ∉ l2 → removeHostname (l1 ++ remove :: l2) remove = l1 ++ l2.
Proof.
  intros Hn. unfold removeHostname.
  rewrite removeHostname_scan_last by done.
  rewrite bool_decide_true by lia.
  replace (Z.to_nat (0 + Z.of_nat (length l1))) with (length l1) by lia.
  replace (Z.to_nat (0 + Z.of_nat (length l1) + 1)) with (S (length l1)) by lia.
  by rewrite take_app_length, drop_past_middle.
Qed.

(** C10: when the name occurs in the list, [removeHostname] removes its
    last occurrence and nothing else, the other elements keeping their
    order; when the name does not occur, the list is returned unchanged. *)
Theorem removeHostname_removes_last (hostnames : list string) (remove : string) :
  (remove ∈ hostnames →
   ∃ l1 l2, hostnames = l1 ++ remove :: l2 ∧ (remove ∉ l2)
            ∧ removeHostname hostnames remove = l1 ++ l2)
  ∧ (remove ∉ hostnames → removeHostname hostnames remove = hostnames).
Proof.
  split.
  - intros Hin. apply list_elem_of_split_r in Hin as (l1 & l2 & -> & Hn).
    exists l1, l2. split; [done|]. split; [done|]. by apply removeHostname_split.
  - apply removeHostname_absent.
Qed.

Lemma removeHostname_removes_last_witness :
  (∃ l1 l2, ["a"; "b"; "a"; "c"] = l1 ++ "a" :: l2 ∧ ("a" ∉ l2)
            ∧ removeHostname ["a"; "b"; "a"; "c"] "a" = l1 ++ l2)
  ∧ removeHostname ["a"; "b"] "c" = ["a"; "b"].
Proof.
  split.
  - apply (proj1 (removeHostname_removes_last ["a"; "b"; "a"; "c"] "a")).
    apply elem_of_cons. by left.
  - apply (proj2 (removeHostname_removes_last ["a"; "b"] "c")).
    intros H. repeat (apply elem_of_cons in H as [H|H]; [discriminate H|]).
    by apply elem_of_nil in H.
Defined.

(** ** resolve finds the first Record with the hostname *)

Lemma resolve_names_elem l name : resolve_names l name = true ↔ name ∈ l.
Proof.
  induction l as [|x l IH]; simpl.
  - rewrite elem_of_nil. split; [discriminate|tauto].
  - rewrite elem_of_cons. case_bool_decide as Hx; subst.
    + split; auto.
    + rewrite IH. split; [auto|]. intros [->|]; [done|auto].
Qed.

Lemma resolve_names_absent l name : name ∉ l → resolve_names l name = false.
Proof.
  intros Hn. destruct (resolve_names l name) eqn:E; [|done].
  by apply resolve_names_elem in E.
Qed.

Lemma no_hostname_cons name e hosts :
  no_hostname name (e :: hosts) →
  match e with EHost host => name ∉ Hostnames host | _ => True end
  ∧ no_hostname name hosts.
Proof.
  intros H. split.
  - destruct e; [done| |done]. apply H. by left.
  - intros h Hh. apply H. by right.
Qed.

Lemma resolve_absent hosts name : no_hostname name hosts → resolve hosts name = None.
Proof.
  induction hosts as [|e hosts IH]; intros H; simpl; [done|].
  apply no_hostname_cons in H as [He H].
  destruct e; auto. by rewrite resolve_names_absent by done; auto.
Qed.

Lemma resolve_first l1 host l2 name :
  name ∈ Hostnames host → no_hostname name l1 →
  resolve (l1 ++ EHost host :: l2) name = Some (IP host).
Proof.
  intros Hin. induction l1 as [|e l1 IH]; intros H; simpl.
  - by rewrite (proj2 (resolve_names_elem _ _) Hin).
  - apply no_hostname_cons in H as [He H].
    destruct e; auto. by rewrite resolve_names_absent by done; auto.
Qed.

(** C7: [resolve] returns the IP of the first Record, in the order of the
    slice, whose hostnames contain the given name; when no Record contains
    it, nothing is found and the command prints nothing. *)
Theorem resolve_first_match (hosts : list Entry) (name : string) :
  (∀ l1 host l2,
     hosts = l1 ++ EHost host :: l2 → name ∈ Hostnames host → no_hostname name l1 →
     resolve hosts name = Some (IP host))
  ∧ (no_hostname name hosts → resolve hosts name = None)
  ∧ (∀ contents l1 host l2,
       ReadHosts contents [] = hosts → hosts = l1 ++ EHost host :: l2 →
       name ∈ Hostnames host → no_hostname name l1 →
       cmdResolve contents name = IP host +:+ NL)
  ∧ (∀ contents, ReadHosts contents [] = hosts → no_hostname name hosts →
       cmdResolve contents name = EmptyString).
Proof.
  split; [|split; [|split]].
  - intros l1 host l2 -> Hin Hno. by apply resolve_first.
  - apply resolve_absent.
  - intros contents l1 host l2 Hread -> Hin Hno. unfold cmdResolve.
    by rewrite Hread, resolve_first.
  - intros contents Hread Hno. unfold cmdResolve. by rewrite Hread, resolve_absent.
Qed.

Lemma resolve_first_match_witness :
  resolve [EStr "# c"; EHost (mkHost "1.1.1.1" ["a"; "b"]); EHost (mkHost "2.2.2.2" ["b"])] "b"
  = Some "1.1.1.1".
Proof.
  apply (proj1 (resolve_first_match _ "b") [EStr "# c"] (mkHost "1.1.1.1" ["a"; "b"])
           [EHost (mkHost "2.2.2.2" ["b"])]).
  - reflexivity.
  - simpl. apply elem_of_cons. right. apply elem_of_cons. by left.
  - intros h Hh. apply elem_of_cons in Hh as [Hh|Hh]; [discriminate Hh|].
    by apply elem_of_nil in Hh.
Defined.

(** ** addHost merges into the first Record of the IP, or appends *)

Lemma no_ip_cons ip e hosts :
  no_ip ip (e :: hosts) →
  match e with EHost host => IP host ≠ ip | _ => True end ∧ no_ip ip hosts.
Proof.
  intros H. split.
  - destruct e; [done| |done]. apply H. by left.
  - intros h Hh. apply H. by right.
Qed.

Lemma addHost_range_absent i rest hosts ip names :
  no_ip ip rest → addHost_range i rest hosts ip names = Some (hosts, false).
Proof.
  revert i. induction rest as [|e rest IH]; intros i H; simpl; [done|].
  apply no_ip_cons in H as [He H].
  destruct e; auto. rewrite bool_decide_false by done. auto.
Qed.

Lemma addHost_range_first i l1 host l2 hosts ip names :
  IP host = ip → no_ip ip l1 →
  addHost_range i (l1 ++ EHost host :: l2) hosts ip names
  = Some (<[i + length l1 := EHost (mkHost ip (dedup_first (Hostnames host ++ names)))]> hosts,
          true).
Proof.
  intros Hip. revert i. induction l1 as [|e l1 IH]; intros i H; simpl.
  - rewrite bool_decide_true by done. rewrite uniqueStrings_dedup. simpl.
    rewrite Hip. by replace (i + 0) with i by lia.
  - apply no_ip_cons in H as [He H].
    replace (i + S (length l1)) with (S i + length l1) by lia.
    destruct e; auto. rewrite bool_decide_false by done. auto.
Qed.

Lemma insert_at_middle {A} (l1 l2 : list A) x y :
  <[length l1 := y]> (l1 ++ x :: l2) = l1 ++ y :: l2.
Proof. induction l1 as [|z l1 IH]; simpl; [done|by rewrite IH]. Qed.

Lemma addHost_first l1 host l2 ip names :
  IP host = ip → no_ip ip l1 →
  addHost (l1 ++ EHost host :: l2) ip names
  = Some (l1 ++ EHost (mkHost ip (dedup_first (Hostnames host ++ names))) :: l2).
Proof.
  intros Hip H. unfold addHost.
  rewrite addHost_range_first by done. simpl. by rewrite insert_at_middle.
Qed.

Lemma addHost_absent hosts ip names :
  no_ip ip hosts →
  addHost hosts ip names = Some (hosts ++ [EHost (mkHost ip (dedup_first names))]).
Proof.
  intros H. unfold addHost.
  rewrite addHost_range_absent by done. simpl.
  by rewrite uniqueStrings_dedup.
Qed.

(** A slice has a first Record of the IP, or none. *)
Lemma first_ip_or_none ip hosts :
  (∃ l1 host l2, hosts = l1 ++ EHost host :: l2 ∧ IP host = ip ∧ no_ip ip l1)
  ∨ no_ip ip hosts.
Proof.
  induction hosts as [|e hosts IH].
  - right. intros h Hh. by apply elem_of_nil in Hh.
  - assert (Hskip : match e with EHost host => IP host ≠ ip | _ => True end →
       (∃ l1 host l2, e :: hosts = l1 ++ EHost host :: l2 ∧ IP host = ip ∧ no_ip ip l1)
       ∨ no_ip ip (e :: hosts)).
    { intros He. destruct IH as [(l1 & host & l2 & -> & Hip & Hno)|Hno].
      - left. exists (e :: l1), host, l2. split; [done|]. split; [done|].
        intros h Hh. apply elem_of_cons in Hh as [Hh|Hh]; [by subst e|by apply Hno].
      - right. intros h Hh. apply elem_of_cons in Hh as [Hh|Hh]; [by subst e|by apply Hno]. }
    destruct e as [row|host|items]; [by apply Hskip| |by apply Hskip].
    destruct (decide (IP host = ip)) as [Hip|Hip]; [|by apply Hskip].
    left. exists [], host, hosts. split; [done|]. split; [done|].
    intros h Hh. by apply elem_of_nil in Hh.
Qed.

(** C4: when the slice has a Record of the IP, [addHost] replaces the
    hostnames of the first such Record by the existing ones followed by the
    new ones, duplicates removed with the first occurrence kept, and leaves
    every other entry as it is, later Records of the same IP included;
    when no Record has the IP, it appends one Record carrying the new
    hostnames with duplicates removed. *)
Theorem addHost_merges_first_or_appends (hosts : list Entry) (ip : string)
    (hostnames : list string) :
  (∀ l1 host l2,
     hosts = l1 ++ EHost host :: l2 → IP host = ip → no_ip ip l1 →
     addHost hosts ip hostnames
     = Some (l1 ++ EHost (mkHost ip (dedup_first (Hostnames host ++ hostnames))) :: l2))
  ∧ (no_ip ip hosts →
     addHost hosts ip hostnames = Some (hosts ++ [EHost (mkHost ip (dedup_first hostnames))]))
  ∧ (∀ l, NoDup (dedup_first l) ∧ ∀ x, x ∈ dedup_first l ↔ x ∈ l).
Proof.
  split; [|split].
  - intros l1 host l2 -> Hip Hno. by apply addHost_first.
  - apply addHost_absent.
  - intros l. split; [apply dedup_first_NoDup|]. intros x. apply dedup_first_elem.
Qed.

Lemma addHost_merges_first_or_appends_witness :
  addHost [EStr "# c"; EHost (mkHost "10.0.0.1" ["a"]); EHost (mkHost "10.0.0.1" ["z"])]
    "10.0.0.1" ["b"; "a"; "b"]
  = Some [EStr "# c"; EHost (mkHost "10.0.0.1" ["a"; "b"]); EHost (mkHost "10.0.0.1" ["z"])]
  ∧ addHost [EStr "# c"] "10.0.0.1" ["b"; "a"; "b"]
    = Some [EStr "# c"; EHost (mkHost "10.0.0.1" ["b"; "a"])].
Proof.
  split.
  - apply (proj1 (addHost_merges_first_or_appends _ "10.0.0.1" ["b"; "a"; "b"])
             [EStr "# c"] (mkHost "10.0.0.1" ["a"]) [EHost (mkHost "10.0.0.1" ["z"])]).
    + reflexivity.
    + reflexivity.
    + intros h Hh. apply elem_of_cons in Hh as [Hh|Hh]; [discriminate Hh|].
      by apply elem_of_nil in Hh.
  - apply (proj1 (proj2 (addHost_merges_first_or_appends [EStr "# c"] "10.0.0.1"
                           ["b"; "a"; "b"]))).
    intros h Hh. apply elem_of_cons in Hh as [Hh|Hh]; [discriminate Hh|].
    by apply elem_of_nil in Hh.
Defined.

(** C5: adding the same IP and hostnames a second time returns the slice
    that the first addition returned. *)
Theorem addHost_idempotent (hosts : list Entry) (ip : string) (hostnames : list string) :
  ∃ hosts1, addHost hosts ip hostnames = Some hosts1
            ∧ addHost hosts1 ip hostnames = Some hosts1.
Proof.
  destruct (first_ip_or_none ip hosts) as [(l1 & host & l2 & -> & Hip & Hno)|Hno].
  - eexists. split; [by apply addHost_first|].
    rewrite addHost_first by done. simpl. by rewrite dedup_first_again.
  - eexists. split; [by apply addHost_absent|].
    rewrite addHost_first by done. simpl.
    pose proof (dedup_first_again [] hostnames) as H. simpl in H.
    by rewrite H.
Qed.

(** ** The loops of removeIP and removeHostnames as folds from the right *)

Lemma lookup_at_middle {A} (l1 l2 : list A) x : (l1 ++ x :: l2) !! length l1 = Some x.
Proof. by apply list_lookup_middle. Qed.

Lemma removeIP_loop_foldr pre done_ ip :
  removeIP_loop (length pre) (pre ++ done_) ip = Some (foldr (removeIP_step ip) done_ pre).
Proof.
  revert done_. induction pre as [|e pre IH] using rev_ind; intros done_; [done|].
  rewrite length_app, Nat.add_1_r, foldr_app. simpl.
  rewrite <- (assoc_L (++)). simpl.
  rewrite lookup_at_middle. simpl.
  rewrite take_app_length, drop_past_middle.
  destruct e as [row|host|items]; simpl; try apply IH.
  case_bool_decide; apply IH.
Qed.

Lemma removeIP_foldr hosts ip :
  removeIP hosts ip = Some (foldr (removeIP_step ip) [] hosts).
Proof.
  unfold removeIP. pose proof (removeIP_loop_foldr hosts [] ip) as H.
  by rewrite app_nil_r in H.
Qed.

Lemma removeHostnames_loop_foldr pre done_ names :
  removeHostnames_loop (length pre) (pre ++ done_) names
  = Some (foldr (removeHostnames_step names) done_ pre).
Proof.
  revert done_. induction pre as [|e pre IH] using rev_ind; intros done_; [done|].
  rewrite length_app, Nat.add_1_r, foldr_app. simpl.
  rewrite <- (assoc_L (++)). simpl.
  rewrite lookup_at_middle. simpl.
  destruct e as [row|host|items]; simpl; try apply IH.
  case_bool_decide.
  - rewrite insert_at_middle. apply IH.
  - rewrite take_app_length, drop_past_middle. apply IH.
Qed.

Lemma removeHostnames_foldr hosts names :
  removeHostnames hosts names = Some (foldr (removeHostnames_step names) [] hosts).
Proof.
  unfold removeHostnames. pose proof (removeHostnames_loop_foldr hosts [] names) as H.
  by rewrite app_nil_r in H.
Qed.

Lemma removeHostnames_fold_rest names pre rest :
  foldr (removeHostnames_step names) rest pre
  = foldr (removeHostnames_step names) [] pre ++ rest.
Proof.
  induction pre as [|e pre IH]; simpl; [done|].
  rewrite IH. destruct e as [row|host|items]; simpl; try done.
  by case_bool_decide.
Qed.

(** ** ReadHosts row by row *)

Lemma ReadHosts_row_parse hosts row : ReadHosts_row hosts row = hosts ++ [parse_row row].
Proof.
  unfold ReadHosts_row, parse_row.
  rewrite (orb_comm (HasPrefix _ _)).
  destruct (bool_decide (TrimSpace row = "") || HasPrefix (TrimSpace row) "#"); [done|].
  destruct (Fields (TrimSpace row)) as [|ip [|name names]]; simpl; try done.
Qed.

Lemma ReadHosts_rows rows hosts :
  foldl ReadHosts_row hosts rows = hosts ++ (parse_row <$> rows).
Proof.
  revert hosts. induction rows as [|row rows IH]; intros hosts; simpl.
  - by rewrite app_nil_r.
  - rewrite IH, ReadHosts_row_parse. by rewrite <- (assoc_L (++)).
Qed.

Lemma ReadHosts_parse contents :
  ReadHosts contents [] = parse_row <$> Split contents "010"%char.
Proof. unfold ReadHosts. by rewrite ReadHosts_rows. Qed.

(** ** RenderHosts entry by entry *)

Lemma append_cons c (s t : string) : String c s +:+ t = String c (s +:+ t).
Proof. reflexivity. Qed.

Lemma append_nil_l (s : string) : "" +:+ s = s.
Proof. reflexivity. Qed.

Lemma append_nil_r (s : string) : s +:+ "" = s.
Proof. induction s as [|c s IH]; [done|]. by rewrite append_cons, IH. Qed.

Lemma append_assoc (s1 s2 s3 : string) : (s1 +:+ s2) +:+ s3 = s1 +:+ (s2 +:+ s3).
Proof. induction s1 as [|c s1 IH]; [done|]. by rewrite !append_cons, IH. Qed.

Lemma RenderHosts_step_entry buf e : RenderHosts_step buf e = buf +:+ render_entry e.
Proof. destruct e; [done|done|]. symmetry. apply append_nil_r. Qed.

Lemma RenderHosts_fold buf hosts :
  foldl RenderHosts_step buf hosts = buf +:+ concat_strings (render_entry <$> hosts).
Proof.
  revert buf. induction hosts as [|e hosts IH]; intros buf; simpl.
  - by rewrite append_nil_r.
  - by rewrite IH, RenderHosts_step_entry, append_assoc.
Qed.

Lemma RenderHosts_concat hosts :
  RenderHosts hosts = concat_strings (render_entry <$> hosts).
Proof. unfold RenderHosts. by rewrite RenderHosts_fold. Qed.

(** C3: [RenderHosts] writes a string entry with no line terminator after
    it, so a comment is joined to the row that follows; a Record is written
    as its IP, a tab, its hostnames separated by single spaces, and a
    newline. *)
Theorem RenderHosts_string_entry_unterminated :
  RenderHosts [EStr "# c"; EHost (mkHost "1.1.1.1" ["a"; "b"]); EStr ""]
  = "# c1.1.1.1" +:+ TAB +:+ "a b" +:+ NL
  ∧ RenderHosts (ReadHosts ("# c" +:+ NL +:+ "1.1.1.1" +:+ TAB +:+ "a b" +:+ NL) [])
    ≠ "# c" +:+ NL +:+ "1.1.1.1" +:+ TAB +:+ "a b" +:+ NL.
Proof. split; [by vm_compute|]. vm_compute. discriminate. Qed.

(** ** removeIP *)

Lemma removeIP_absent hosts ip : no_ip ip hosts → removeIP hosts ip = Some hosts.
Proof.
  intros H. rewrite removeIP_foldr. f_equal.
  induction hosts as [|e hosts IH]; simpl; [done|].
  apply no_ip_cons in H as [He H]. rewrite IH by done.
  destruct e; simpl; try done. by rewrite bool_decide_false.
Qed.

Lemma removeIP_fold_prefix ip l1 rest :
  no_ip ip l1 → foldr (removeIP_step ip) rest l1 = l1 ++ rest.
Proof.
  induction l1 as [|e l1 IH]; intros H; simpl; [done|].
  apply no_ip_cons in H as [He H]. rewrite IH by done.
  destruct e; simpl; try done. by rewrite bool_decide_false.
Qed.

(** What is left after the first Record of the IP is one slice element,
    which the renderer skips. *)
Lemma removeIP_first l1 host l2 ip :
  IP host = ip → no_ip ip l1 →
  removeIP (l1 ++ EHost host :: l2) ip
  = Some (l1 ++ [ESlice (foldr (removeIP_step ip) [] l2)]).
Proof.
  intros Hip H. rewrite removeIP_foldr, foldr_app. simpl.
  rewrite bool_decide_true by done. by rewrite removeIP_fold_prefix.
Qed.

Lemma removeIP_first_render l1 host l2 ip :
  IP host = ip → no_ip ip l1 →
  RenderHosts <$> removeIP (l1 ++ EHost host :: l2) ip = Some (RenderHosts l1).
Proof.
  intros Hip H. rewrite removeIP_first by done. simpl. f_equal.
  rewrite !RenderHosts_concat, fmap_app. simpl.
  induction (render_entry <$> l1) as [|x xs IH]; simpl; [done|by rewrite IH].
Qed.

(** C2: [removeIP] removes the first Record of the IP and, with it, every
    entry that follows: they are moved into one slice element, which the
    renderer does not write. *)
Theorem removeIP_drops_following_entries :
  removeIP [EStr "# c"; EHost (mkHost "127.0.0.1" ["localhost"]);
            EHost (mkHost "10.0.0.5" ["foo.test"]); EStr ""] "127.0.0.1"
  = Some [EStr "# c"; ESlice [EHost (mkHost "10.0.0.5" ["foo.test"]); EStr ""]]
  ∧ cmdRemoveIP ("127.0.0.1" +:+ TAB +:+ "localhost" +:+ NL
                 +:+ "10.0.0.5" +:+ TAB +:+ "foo.test" +:+ NL) "127.0.0.1"
    = Some "".
Proof. split; by vm_compute. Qed.

(** ** The Records of the slice after each operation *)

Lemma removeIP_fold_records ip hosts host :
  EHost host ∈ foldr (removeIP_step ip) [] hosts → EHost host ∈ hosts.
Proof.
  induction hosts as [|e hosts IH]; simpl; [done|].
  intros H. assert (Hcons : EHost host ∈ e :: foldr (removeIP_step ip) [] hosts →
                            EHost host ∈ e :: hosts).
  { rewrite !elem_of_cons. intros [?|?]; [by left|right; by apply IH]. }
  destruct e as [row|h|items]; simpl in H; try by apply Hcons.
  case_bool_decide; [|by apply Hcons].
  apply list_elem_of_singleton in H. discriminate H.
Qed.

Lemma removeHostnames_fold_records names hosts host :
  EHost host ∈ foldr (removeHostnames_step names) [] hosts →
  ∃ host0, EHost host0 ∈ hosts ∧ IP host = IP host0
           ∧ Hostnames host = foldl removeHostname (Hostnames host0) names
           ∧ Hostnames host ≠ [].
Proof.
  induction hosts as [|e hosts IH]; simpl; [by intros H%elem_of_nil|].
  intros H.
  assert (Hrest : EHost host ∈ foldr (removeHostnames_step names) [] hosts →
    ∃ host0, EHost host0 ∈ e :: hosts ∧ IP host = IP host0
             ∧ Hostnames host = foldl removeHostname (Hostnames host0) names
             ∧ Hostnames host ≠ []).
  { intros (h0 & Hin & Hrec)%IH. exists h0. split; [by right|done]. }
  destruct e as [row|h|items]; simpl in H.
  - apply elem_of_cons in H as [H|H]; [discriminate H|by apply Hrest].
  - case_bool_decide as Hlen; [|by apply Hrest].
    apply elem_of_cons in H as [H|H]; [|by apply Hrest].
    injection H as ->. exists h. simpl. split; [by left|].
    split; [done|]. split; [done|]. intros Hnil. rewrite Hnil in Hlen. simpl in Hlen. lia.
  - apply elem_of_cons in H as [H|H]; [discriminate H|by apply Hrest].
Qed.

Lemma addHost_records hosts ip names hosts' host :
  addHost hosts ip names = Some hosts' → EHost host ∈ hosts' →
  EHost host ∈ hosts
  ∨ (IP host = ip ∧ ∃ old, Hostnames host = dedup_first (old ++ names)
                           ∧ (old = [] ∨ ∃ host0, EHost host0 ∈ hosts ∧ old = Hostnames host0)).
Proof.
  destruct (first_ip_or_none ip hosts) as [(l1 & h0 & l2 & -> & Hip & Hno)|Hno].
  - rewrite addHost_first by done. intros [= <-].
    rewrite !elem_of_app, !elem_of_cons. intros [H|[H|H]]; [left; by left| |left; right; by right].
    injection H as ->. right. simpl. split; [done|]. exists (Hostnames h0). split; [done|].
    right. exists h0. split; [|done]. apply elem_of_app. right. by left.
  - rewrite addHost_absent by done. intros [= <-].
    rewrite elem_of_app, list_elem_of_singleton. intros [H|H]; [by left|].
    injection H as ->. right. simpl. split; [done|]. exists []. split; [done|by left].
Qed.

Lemma addHost_total hosts ip names : ∃ hosts', addHost hosts ip names = Some hosts'.
Proof.
  destruct (first_ip_or_none ip hosts) as [(l1 & h0 & l2 & -> & Hip & Hno)|Hno].
  - rewrite addHost_first by done. eauto.
  - rewrite addHost_absent by done. eauto.
Qed.

Lemma parse_row_record row host :
  parse_row row = EHost host →
  Fields (TrimSpace row) = IP host :: Hostnames host ∧ Hostnames host ≠ [].
Proof.
  unfold parse_row.
  destruct (bool_decide (TrimSpace row = "") || HasPrefix (TrimSpace row) "#"); [done|].
  destruct (Fields (TrimSpace row)) as [|ip [|name names]]; try done.
  by intros [= <-].
Qed.

Lemma ReadHosts_records contents host :
  EHost host ∈ ReadHosts contents [] →
  ∃ row, row ∈ Split contents "010"%char
         ∧ Fields (TrimSpace row) = IP host :: Hostnames host ∧ Hostnames host ≠ [].
Proof.
  rewrite ReadHosts_parse. intros (row & Hrow & Hin)%list_elem_of_fmap.
  exists row. split; [done|]. by apply parse_row_record.
Qed.

Lemma dedup_first_nonempty l m : l ++ m ≠ [] → dedup_first (l ++ m) ≠ [].
Proof. by destruct (l ++ m). Qed.

(** C6: every Record of the slice has at least one hostname after
    [ReadHosts], after [addHost] with at least one hostname, after
    [removeIP] and after [removeHostnames]; a Record that [removeHostnames]
    leaves without a hostname is deleted from the slice. *)
Theorem records_keep_a_hostname :
  (∀ contents, records_nonempty (ReadHosts contents []))
  ∧ (∀ hosts ip names,
       records_nonempty hosts → names ≠ [] →
       ∃ hosts', addHost hosts ip names = Some hosts' ∧ records_nonempty hosts')
  ∧ (∀ hosts ip,
       records_nonempty hosts →
       ∃ hosts', removeIP hosts ip = Some hosts' ∧ records_nonempty hosts')
  ∧ (∀ hosts names,
       ∃ hosts', removeHostnames hosts names = Some hosts' ∧ records_nonempty hosts')
  ∧ (∀ l1 host l2 names,
       foldl removeHostname (Hostnames host) names = [] →
       ∃ r1 r2, removeHostnames l1 names = Some r1 ∧ removeHostnames l2 names = Some r2
                ∧ removeHostnames (l1 ++ EHost host :: l2) names = Some (r1 ++ r2)).
Proof.
  split; [|split; [|split; [|split]]].
  - intros contents h Hh. by apply ReadHosts_records in Hh as (row & _ & _ & Hne).
  - intros hosts ip names Hinv Hnames.
    destruct (addHost_total hosts ip names) as [hosts' Hadd].
    exists hosts'. split; [done|]. intros h Hh.
    destruct (addHost_records _ _ _ _ _ Hadd Hh) as [Hold|(_ & old & -> & _)].
    + by apply Hinv.
    + apply dedup_first_nonempty. intros [_ ?]%app_eq_nil. done.
  - intros hosts ip Hinv. eexists. split; [apply removeIP_foldr|].
    intros h Hh. apply Hinv. by apply removeIP_fold_records in Hh.
  - intros hosts names. eexists. split; [apply removeHostnames_foldr|].
    intros h Hh. by apply removeHostnames_fold_records in Hh as (h0 & _ & _ & _ & Hne).
  - intros l1 host l2 names Hempty. eexists _, _.
    split; [apply removeHostnames_foldr|]. split; [apply removeHostnames_foldr|].
    rewrite removeHostnames_foldr, foldr_app. simpl. rewrite Hempty. simpl.
    by rewrite removeHostnames_fold_rest.
Qed.

Lemma records_keep_a_hostname_witness :
  (∃ hosts', addHost [EHost (mkHost "10.0.0.1" ["a"])] "10.0.0.1" ["b"] = Some hosts'
             ∧ records_nonempty hosts')
  ∧ (∃ r1 r2, removeHostnames [EStr "# c"] ["x"] = Some r1
              ∧ removeHostnames [EStr ""] ["x"] = Some r2
              ∧ removeHostnames [EStr "# c"; EHost (mkHost "10.0.0.1" ["x"]); EStr ""] ["x"]
                = Some (r1 ++ r2)).
Proof.
  split.
  - apply (proj1 (proj2 records_keep_a_hostname)).
    + intros h Hh. apply list_elem_of_singleton in Hh. injection Hh as ->. discriminate.
    + discriminate.
  - apply (proj2 (proj2 (proj2 (proj2 records_keep_a_hostname)))
             [EStr "# c"] (mkHost "10.0.0.1" ["x"]) [EStr ""] ["x"]).
    reflexivity.
Defined.

(** ** Distinct hostnames *)

Lemma removeHostname_sublist l remove : removeHostname l remove `sublist_of` l.
Proof.
  destruct (decide (remove ∈ l)) as [Hin|Hn].
  - apply list_elem_of_split_r in Hin as (l1 & l2 & -> & Hn).
    rewrite removeHostname_split by done.
    apply sublist_app; [done|]. by apply sublist_cons.
  - by rewrite removeHostname_absent.
Qed.

Lemma removeHostnames_names_sublist l names : foldl removeHostname l names `sublist_of` l.
Proof.
  revert l. induction names as [|name names IH]; intros l; simpl; [done|].
  etrans; [apply IH|apply removeHostname_sublist].
Qed.

(** Counterexample to C9: [ReadHosts] keeps a hostname that a row repeats. *)
Lemma ReadHosts_keeps_repeated_hostname :
  ¬ records_distinct (ReadHosts "1.1.1.1 a a" []).
Proof.
  intros H. specialize (H (mkHost "1.1.1.1" ["a"; "a"])).
  assert (Hdup : NoDup ["a"; "a"]).
  { apply H. vm_compute. by left. }
  apply NoDup_cons in Hdup as [Hdup _]. apply Hdup. by left.
Qed.

Lemma parse_row_record_row row host :
  parse_row row = EHost host →
  TrimSpace row ≠ "" ∧ HasPrefix (TrimSpace row) "#"%char = false
  ∧ Fields (TrimSpace row) = IP host :: Hostnames host ∧ Hostnames host ≠ [].
Proof.
  unfold parse_row.
  destruct (bool_decide (TrimSpace row = "")) eqn:He; [done|].
  destruct (HasPrefix (TrimSpace row) "#") eqn:Hp; [done|]. simpl.
  apply bool_decide_eq_false in He.
  destruct (Fields (TrimSpace row)) as [|ip [|name names]]; try done.
  by intros [= <-].
Qed.

Lemma parse_row_is_record row ip names :
  TrimSpace row ≠ "" → HasPrefix (TrimSpace row) "#"%char = false →
  Fields (TrimSpace row) = ip :: names → names ≠ [] →
  parse_row row = EHost (mkHost ip names).
Proof.
  intros Hne Hp Hf Hnames. unfold parse_row.
  rewrite bool_decide_false by done. rewrite Hp, Hf. simpl. by destruct names.
Qed.

(** The hostnames of the Records that [ReadHosts] yields are pairwise
    distinct exactly when no row that is read as a Record repeats a field
    among its hostnames. *)
Lemma ReadHosts_distinct_iff contents :
  records_distinct (ReadHosts contents [])
  ↔ (∀ row ip names,
       row ∈ Split contents "010"%char →
       TrimSpace row ≠ "" → HasPrefix (TrimSpace row) "#"%char = false →
       Fields (TrimSpace row) = ip :: names → names ≠ [] → NoDup names).
Proof.
  split.
  - intros Hd row ip names Hrow Hne Hp Hf Hnames.
    apply (Hd (mkHost ip names)). rewrite ReadHosts_parse.
    apply list_elem_of_fmap. exists row. split; [|done].
    symmetry. by apply parse_row_is_record.
  - intros Hrows h Hh. rewrite ReadHosts_parse in Hh.
    apply list_elem_of_fmap in Hh as (row & Hparse & Hrow). symmetry in Hparse.
    apply parse_row_record_row in Hparse as (Hne & Hp & Hf & Hnames).
    by apply (Hrows row (IP h) (Hostnames h)).
Qed.

(** After [addHost] the slice has a first Record of the IP; its hostnames
    are the hostnames that the first Record of the IP had before (none when
    there was no such Record) followed by the new ones, with duplicates
    removed: they are pairwise distinct and hold every new name. *)
Lemma addHost_record_deduplicated hosts ip names :
  ∃ l1 host l2 old,
    addHost hosts ip names = Some (l1 ++ EHost host :: l2)
    ∧ IP host = ip ∧ no_ip ip l1
    ∧ ((∃ host0, hosts = l1 ++ EHost host0 :: l2 ∧ IP host0 = ip ∧ old = Hostnames host0)
       ∨ (hosts = l1 ∧ l2 = [] ∧ old = []))
    ∧ Hostnames host = dedup_first (old ++ names)
    ∧ NoDup (Hostnames host)
    ∧ (∀ x, x ∈ Hostnames host ↔ x ∈ old ∨ x ∈ names).
Proof.
  destruct (first_ip_or_none ip hosts) as [(l1 & host0 & l2 & -> & Hip & Hno)|Hno].
  - exists l1, (mkHost ip (dedup_first (Hostnames host0 ++ names))), l2, (Hostnames host0).
    split; [by apply addHost_first|]. split; [done|]. split; [done|].
    split; [left; by exists host0|]. split; [done|]. split; [apply dedup_first_NoDup|].
    intros x. simpl. by rewrite dedup_first_elem, elem_of_app.
  - exists hosts, (mkHost ip (dedup_first names)), [], [].
    split; [by apply addHost_absent|]. split; [done|]. split; [done|].
    split; [by right|]. split; [done|]. split; [apply dedup_first_NoDup|].
    intros x. simpl. rewrite dedup_first_elem, elem_of_nil. tauto.
Qed.

(** C9, amended: [ReadHosts] keeps the hostnames of a row as written, so
    the hostnames of its Records are pairwise distinct exactly when no row
    that is read as a Record repeats a field among its hostnames.  After
    [addHost] the first Record of the IP holds the hostnames it had before
    (none when it is new) followed by the new ones with duplicates removed,
    the first occurrence of each name kept in its place: they are pairwise
    distinct.  [addHost], [removeIP] and [removeHostnames] keep the
    hostnames of every Record pairwise distinct when they were so before,
    and [removeHostnames] leaves the names it keeps in their order. *)
Theorem operations_keep_hostnames_distinct :
  (∀ contents,
     records_distinct (ReadHosts contents [])
     ↔ (∀ row ip names,
          row ∈ Split contents "010"%char →
          TrimSpace row ≠ EmptyString → HasPrefix (TrimSpace row) "#"%char = false →
          Fields (TrimSpace row) = ip :: names → names ≠ [] → NoDup names))
  ∧ (∀ hosts ip names,
       records_distinct hosts →
       ∃ hosts', addHost hosts ip names = Some hosts' ∧ records_distinct hosts')
  ∧ (∀ hosts ip names,
       ∃ l1 host l2 old,
         addHost hosts ip names = Some (l1 ++ EHost host :: l2)
         ∧ IP host = ip ∧ no_ip ip l1
         ∧ ((∃ host0, hosts = l1 ++ EHost host0 :: l2 ∧ IP host0 = ip
                      ∧ old = Hostnames host0)
            ∨ (hosts = l1 ∧ l2 = [] ∧ old = []))
         ∧ Hostnames host = dedup_first (old ++ names)
         ∧ NoDup (Hostnames host)
         ∧ (∀ x, x ∈ Hostnames host ↔ x ∈ old ∨ x ∈ names))
  ∧ (∀ hosts ip,
       records_distinct hosts →
       ∃ hosts', removeIP hosts ip = Some hosts' ∧ records_distinct hosts')
  ∧ (∀ hosts names,
       records_distinct hosts →
       ∃ hosts', removeHostnames hosts names = Some hosts' ∧ records_distinct hosts')
  ∧ (∀ l names, foldl removeHostname l names `sublist_of` l).
Proof.
  split; [|split; [|split; [|split; [|split]]]].
  - apply ReadHosts_distinct_iff.
  - intros hosts ip names Hinv.
    destruct (addHost_total hosts ip names) as [hosts' Hadd].
    exists hosts'. split; [done|]. intros h Hh.
    destruct (addHost_records _ _ _ _ _ Hadd Hh) as [Hold|(_ & old & -> & _)].
    + by apply Hinv.
    + apply dedup_first_NoDup.
  - apply addHost_record_deduplicated.
  - intros hosts ip Hinv. eexists. split; [apply removeIP_foldr|].
    intros h Hh. apply Hinv. by apply removeIP_fold_records in Hh.
  - intros hosts names Hinv. eexists. split; [apply removeHostnames_foldr|].
    intros h Hh. apply removeHostnames_fold_records in Hh as (h0 & Hin & _ & Heq & _).
    rewrite Heq.
    apply (sublist_NoDup _ (Hostnames h0)); [by apply Hinv|].
    apply removeHostnames_names_sublist.
  - apply removeHostnames_names_sublist.
Qed.

Lemma operations_keep_hostnames_distinct_witness :
  records_distinct (ReadHosts ("# c c" +:+ NL +:+ "1.1.1.1 a 1.1.1.1 b") [])
  ∧ (∃ hosts', addHost [EHost (mkHost "10.0.0.1" ["a"])] "10.0.0.1" ["b"; "a"] = Some hosts'
               ∧ records_distinct hosts').
Proof.
  split.
  - apply (proj2 (proj1 operations_keep_hostnames_distinct _)).
    intros row ip names Hrow Hne Hp Hf Hnames. vm_compute in Hrow.
    repeat (apply elem_of_cons in Hrow as [->|Hrow]; [|]).
    + vm_compute in Hp. discriminate Hp.
    + vm_compute in Hf. injection Hf as <- <-.
      repeat (apply NoDup_cons; split;
              [intros H; repeat (apply elem_of_cons in H as [H|H]; [discriminate H|]);
               by apply elem_of_nil in H|]).
      apply NoDup_nil_2.
    + by apply elem_of_nil in Hrow.
  - apply (proj1 (proj2 operations_keep_hostnames_distinct)).
    intros h Hh. apply list_elem_of_singleton in Hh. injection Hh as ->. simpl.
    apply NoDup_singleton.
Defined.

(** ** Split cuts at every newline *)

Lemma Split_nonempty s sep : Split s sep ≠ [].
Proof.
  induction s as [|c s IH]; simpl; [done|].
  case_bool_decide; [done|]. by destruct (Split s sep).
Qed.

Lemma Join_cons2 e e' rest sep :
  Join (e :: e' :: rest) sep = e +:+ sep +:+ Join (e' :: rest) sep.
Proof. reflexivity. Qed.

Lemma Join_Split s sep : Join (Split s sep) (String sep "") = s.
Proof.
  induction s as [|c s IH]; simpl; [done|].
  pose proof (Split_nonempty s sep) as Hne.
  destruct (Split s sep) as [|piece pieces]; [done|].
  case_bool_decide as Hc.
  - subst c. by rewrite Join_cons2, IH.
  - destruct pieces as [|piece' pieces].
    + simpl in *. by rewrite IH.
    + rewrite Join_cons2 in *. rewrite append_cons. by rewrite IH.
Qed.

Lemma Split_pieces s sep piece : piece ∈ Split s sep → has_byte sep piece = false.
Proof.
  revert piece. induction s as [|c s IH]; intros piece; simpl.
  - by intros ->%list_elem_of_singleton.
  - pose proof (Split_nonempty s sep) as Hne.
    destruct (Split s sep) as [|p ps]; [done|].
    case_bool_decide as Hc.
    + rewrite elem_of_cons. intros [->|H]; [done|by apply IH].
    + rewrite elem_of_cons. intros [->|H].
      * simpl. rewrite bool_decide_false by done. apply IH. by left.
      * apply IH. by right.
Qed.

(** ** White space next to an ASCII byte *)

Lemma space2_ascii c d : (byteval d < 128)%N → space2 c d = false.
Proof.
  intros Hd. apply not_true_is_false. unfold space2. intros H.
  bool_to_prop H. lia.
Qed.

Lemma space3_ascii_mid c d e : (byteval d < 128)%N → space3 c d e = false.
Proof.
  intros Hd. apply not_true_is_false. unfold space3. intros H.
  bool_to_prop H. lia.
Qed.

Lemma space3_ascii_last c d e : (byteval e < 128)%N → space3 c d e = false.
Proof.
  intros Hd. apply not_true_is_false. unfold space3. intros H.
  bool_to_prop H. lia.
Qed.

Lemma space_width_space c r : asciiSpace c = true → space_width (String c r) = 1.
Proof. intros H. simpl. by rewrite H. Qed.

(** A byte that starts no white space still starts none when an ASCII byte
    is put after the string. *)
Lemma space_width_before_ascii c r rest :
  space_width (String c r) = 0 → ascii_led rest →
  space_width (String c r +:+ rest) = 0.
Proof.
  intros H Hrest. rewrite append_cons.
  destruct r as [|c1 [|c2 r2]]; rewrite ?append_cons, ?append_nil_l.
  - simpl in *. destruct (asciiSpace c); [done|].
    destruct rest as [|d [|e rest]]; [done| |]; simpl in Hrest.
    + by rewrite space2_ascii.
    + by rewrite space2_ascii, space3_ascii_mid.
  - simpl in *. destruct (asciiSpace c); [done|].
    destruct (space2 c c1); [done|].
    destruct rest as [|d rest]; [done|]; simpl in Hrest.
    by rewrite space3_ascii_last.
  - simpl in *. done.
Qed.

Lemma nospace_cons c r :
  nospace (String c r) = true → space_width (String c r) = 0 ∧ nospace r = true.
Proof.
  simpl nospace. intros H. apply andb_true_iff in H as [H1 H2].
  split; [by apply bool_decide_eq_true in H1|done].
Qed.

(** ** Fields, trimLeft and trimRight on tokens and separators *)

Lemma Fields_go_nonspace cur c r :
  space_width (String c r) = 0 →
  Fields_go cur (String c r) = Fields_go (cur +:+ String c "") r.
Proof. intros H. cbn [Fields_go]. by rewrite H. Qed.

Lemma Fields_go_space cur c r :
  asciiSpace c = true →
  Fields_go cur (String c r) = flush cur ++ Fields_go "" r.
Proof. intros H. cbn [Fields_go]. by rewrite space_width_space. Qed.

Lemma Fields_go_token t cur rest :
  nospace t = true → ascii_led rest →
  Fields_go cur (t +:+ rest) = Fields_go (cur +:+ t) rest.
Proof.
  revert cur. induction t as [|c r IH]; intros cur Ht Hrest.
  - by rewrite append_nil_l, append_nil_r.
  - apply nospace_cons in Ht as [Hc Hr].
    pose proof (space_width_before_ascii c r rest Hc Hrest) as Hw.
    rewrite append_cons in *. rewrite Fields_go_nonspace by done.
    rewrite IH by done. f_equal. by rewrite append_assoc.
Qed.

Lemma all_space_nonspace c r : space_width (String c r) = 0 → all_space (String c r) = false.
Proof. intros H. cbn [all_space]. by rewrite H. Qed.

Lemma all_space_space c r : asciiSpace c = true → all_space (String c r) = all_space r.
Proof. intros H. cbn [all_space]. by rewrite space_width_space. Qed.

Lemma trimLeft_nonspace c r : space_width (String c r) = 0 → trimLeft (String c r) = String c r.
Proof. intros H. cbn [trimLeft]. by rewrite H. Qed.

Lemma trimRight_token t rest :
  nospace t = true → ascii_led rest → trimRight (t +:+ rest) = t +:+ trimRight rest.
Proof.
  induction t as [|c r IH]; intros Ht Hrest; [done|].
  apply nospace_cons in Ht as [Hc Hr].
  pose proof (space_width_before_ascii c r rest Hc Hrest) as Hw.
  rewrite !append_cons in *. cbn [trimRight].
  rewrite all_space_nonspace by done. by rewrite IH.
Qed.

Lemma trimRight_space c r :
  asciiSpace c = true → all_space r = false →
  trimRight (String c r) = String c (trimRight r).
Proof. intros Hc Hr. cbn [trimRight]. by rewrite all_space_space, Hr. Qed.

Lemma has_byte_app c s t : has_byte c (s +:+ t) = has_byte c s || has_byte c t.
Proof.
  induction s as [|c0 s IH]; [done|].
  rewrite append_cons. simpl. by rewrite IH, orb_assoc.
Qed.

Lemma nospace_no_newline t : nospace t = true → has_byte "010"%char t = false.
Proof.
  induction t as [|c r IH]; [done|]. intros [Hc Hr]%nospace_cons.
  simpl has_byte. rewrite IH by done. rewrite orb_false_r.
  apply bool_decide_eq_false. intros ->. by vm_compute in Hc.
Qed.

(** ** Rows as RenderHosts writes them *)

Lemma token_inv t : token t = true → ∃ c r, t = String c r ∧ nospace t = true.
Proof.
  unfold token. intros [Hne Hns]%andb_true_iff.
  destruct t as [|c r]; [done|]. by exists c, r.
Qed.

Lemma Join_head n ns : ∃ rest, Join (n :: ns) SP = n +:+ rest ∧ ascii_led rest.
Proof.
  destruct ns as [|n' ns].
  - exists "". simpl. by rewrite append_nil_r.
  - exists (SP +:+ Join (n' :: ns) SP). split; [apply Join_cons2|].
    unfold SP. rewrite append_cons. by vm_compute.
Qed.

Lemma all_space_Join names :
  names ≠ [] → forallb token names = true → all_space (Join names SP) = false.
Proof.
  destruct names as [|n ns]; [done|]. intros _ [Hn _]%andb_true_iff.
  destruct (Join_head n ns) as (rest & -> & Hrest).
  apply token_inv in Hn as (c & r & -> & Hns).
  apply nospace_cons in Hns as [Hc _].
  pose proof (space_width_before_ascii c r rest Hc Hrest) as Hw.
  rewrite append_cons in *. by apply all_space_nonspace.
Qed.

Lemma Fields_go_token_end t cur :
  nospace t = true → Fields_go cur t = flush (cur +:+ t).
Proof.
  intros Ht. pose proof (Fields_go_token t cur "" Ht I) as H.
  by rewrite append_nil_r in H.
Qed.

Lemma trimRight_token_end t : nospace t = true → trimRight t = t.
Proof.
  intros Ht. pose proof (trimRight_token t "" Ht I) as H.
  change (trimRight "") with "" in H. by rewrite !append_nil_r in H.
Qed.

Lemma Fields_go_Join names :
  forallb token names = true → Fields_go "" (Join names SP) = names.
Proof.
  induction names as [|n ns IH]; [done|].
  intros [Hn Hns]%andb_true_iff.
  apply token_inv in Hn as (c & r & Hn & Hsp).
  destruct ns as [|n' ns].
  - simpl Join. rewrite Fields_go_token_end by done.
    rewrite append_nil_l. by subst n.
  - rewrite Join_cons2. unfold SP at 1. rewrite Fields_go_token; [|done|by vm_compute].
    rewrite append_nil_l, append_cons, append_nil_l.
    rewrite Fields_go_space by done. rewrite IH by done. by subst n.
Qed.

Lemma trimRight_Join names :
  forallb token names = true → trimRight (Join names SP) = Join names SP.
Proof.
  induction names as [|n ns IH]; [done|].
  intros [Hn Hns]%andb_true_iff.
  apply token_inv in Hn as (c & r & Hn & Hsp).
  destruct ns as [|n' ns].
  - simpl Join. by rewrite trimRight_token_end.
  - rewrite Join_cons2. unfold SP at 1 3. rewrite trimRight_token; [|done|by vm_compute].
    rewrite !append_cons, !append_nil_l.
    rewrite trimRight_space; [|done|by apply all_space_Join].
    by rewrite IH.
Qed.

(** The row of a Record, without its newline. *)
Lemma render_entry_row host rest :
  render_entry (EHost host) +:+ rest
  = (IP host +:+ TAB +:+ Join (Hostnames host) SP) +:+ NL +:+ rest.
Proof. simpl. by rewrite !append_assoc. Qed.

Lemma canonical_inv host :
  canonical host = true →
  token (IP host) = true ∧ HasPrefix (IP host) "#"%char = false
  ∧ Hostnames host ≠ [] ∧ forallb token (Hostnames host) = true.
Proof.
  unfold canonical. intros [[[H1 H2]%andb_true_iff H3]%andb_true_iff H4]%andb_true_iff.
  split; [done|]. split; [by apply negb_true_iff in H2|]. split; [|done].
  apply negb_true_iff in H3. by apply bool_decide_eq_false in H3.
Qed.

Lemma parse_row_canonical host :
  canonical host = true →
  parse_row (IP host +:+ TAB +:+ Join (Hostnames host) SP) = EHost host.
Proof.
  intros (Hip & Hhash & Hne & Hnames)%canonical_inv.
  destruct host as [ip names]. simpl in *.
  apply token_inv in Hip as (c & r & Hip & Hsp).
  assert (Hled : ascii_led (TAB +:+ Join names SP)) by (by vm_compute).
  assert (Htrim : TrimSpace (ip +:+ TAB +:+ Join names SP) = ip +:+ TAB +:+ Join names SP).
  { unfold TrimSpace.
    assert (trimLeft (ip +:+ TAB +:+ Join names SP) = ip +:+ TAB +:+ Join names SP) as ->.
    { subst ip. pose proof Hsp as [Hc _]%nospace_cons.
      pose proof (space_width_before_ascii c r _ Hc Hled) as Hw.
      rewrite append_cons in *. by apply trimLeft_nonspace. }
    rewrite trimRight_token by done. f_equal.
    unfold TAB. rewrite append_cons, append_nil_l.
    rewrite trimRight_space; [|done|by apply all_space_Join].
    by rewrite trimRight_Join. }
  unfold parse_row. rewrite Htrim.
  assert (Hfields : Fields (ip +:+ TAB +:+ Join names SP) = ip :: names).
  { unfold Fields. rewrite Fields_go_token by done.
    unfold TAB. rewrite append_nil_l, append_cons, append_nil_l.
    rewrite Fields_go_space by done. rewrite Fields_go_Join by done. by subst ip. }
  rewrite Hfields.
  assert (Hcond : bool_decide (ip +:+ TAB +:+ Join names SP = "")
                  || HasPrefix (ip +:+ TAB +:+ Join names SP) "#" = false).
  { subst ip. rewrite append_cons. by rewrite bool_decide_false by done. }
  rewrite Hcond. by destruct names.
Qed.

Lemma canonical_row_no_newline host :
  canonical host = true →
  has_byte "010"%char (IP host +:+ TAB +:+ Join (Hostnames host) SP) = false.
Proof.
  intros (Hip & _ & _ & Hnames)%canonical_inv.
  apply token_inv in Hip as (c & r & _ & Hsp).
  rewrite !has_byte_app, (nospace_no_newline _ Hsp). simpl.
  induction (Hostnames host) as [|n ns IH]; [done|].
  apply andb_true_iff in Hnames as [Hn Hns].
  apply token_inv in Hn as (c' & r' & _ & Hsp').
  destruct ns as [|n' ns]; [by apply nospace_no_newline|].
  rewrite Join_cons2, !has_byte_app, (nospace_no_newline _ Hsp'). simpl.
  by apply IH.
Qed.

Lemma Split_row row rest :
  has_byte "010"%char row = false →
  Split (row +:+ NL +:+ rest) "010"%char = row :: Split rest "010"%char.
Proof.
  induction row as [|c r IH]; intros H.
  - done.
  - simpl in H. apply orb_false_iff in H as [Hc Hr].
    rewrite append_cons. simpl. rewrite Hc. by rewrite IH.
Qed.

Lemma Split_trailing_newline text :
  Split (text +:+ NL) "010"%char = Split text "010"%char ++ [""].
Proof.
  induction text as [|c r IH]; [done|].
  rewrite append_cons. simpl. rewrite IH.
  pose proof (Split_nonempty r "010"%char) as Hne.
  case_bool_decide; [done|]. by destruct (Split r "010"%char).
Qed.

Lemma Split_render_rows records :
  (∀ host, host ∈ records → canonical host = true) →
  Split (render_rows records) "010"%char
  = ((λ host, IP host +:+ TAB +:+ Join (Hostnames host) SP) <$> records) ++ [""].
Proof.
  induction records as [|host records IH]; intros Hc; [done|].
  unfold render_rows. rewrite fmap_cons. cbn [concat_strings].
  rewrite render_entry_row, Split_row.
  - fold (render_rows records). rewrite IH; [done|].
    intros h Hh. apply Hc. by right.
  - apply canonical_row_no_newline. apply Hc. by left.
Qed.

(** ** Reading back what RenderHosts wrote *)

Lemma concat_strings_snoc_empty l : concat_strings (l ++ [""]) = concat_strings l.
Proof. induction l as [|x l IH]; simpl; [done|by rewrite IH]. Qed.

Lemma parse_rows_canonical (records : list Host) :
  (∀ host, host ∈ records → canonical host = true) →
  parse_row <$> ((λ host, IP host +:+ TAB +:+ Join (Hostnames host) SP) <$> records)
  = EHost <$> records.
Proof.
  induction records as [|host records IH]; intros Hc; [done|].
  rewrite !fmap_cons. rewrite parse_row_canonical by (apply Hc; by left).
  f_equal. apply IH. intros h Hh. apply Hc. by right.
Qed.

(** Counterexample to C1: a row of two fields separated by a space is
    written back with a tab. *)
Lemma render_parse_changes_separator :
  RenderHosts (ReadHosts ("1.1.1.1 a" +:+ NL) []) ≠ "1.1.1.1 a" +:+ NL.
Proof. vm_compute. discriminate. Qed.

(** C1, amended: a text that ends in a newline is read as the entries of
    the text before that newline followed by the empty string entry; and a
    text made only of rows of the form IP, tab, hostnames separated by
    single spaces, newline (IP and hostnames non-empty and free of white
    space, the IP not starting with '#') is read as these Records followed
    by the empty string entry and is rendered back unchanged. *)
Theorem render_parse_canonical_rows :
  (∀ text, ReadHosts (text +:+ NL) [] = ReadHosts text [] ++ [EStr ""])
  ∧ (∀ records : list Host,
       (∀ host, host ∈ records → canonical host = true) →
       ReadHosts (render_rows records) [] = (EHost <$> records) ++ [EStr ""]
       ∧ RenderHosts (ReadHosts (render_rows records) []) = render_rows records).
Proof.
  split.
  - intros text. rewrite !ReadHosts_parse, Split_trailing_newline. by rewrite fmap_app.
  - intros records Hc.
    assert (Hread : ReadHosts (render_rows records) [] = (EHost <$> records) ++ [EStr ""]).
    { rewrite ReadHosts_parse, Split_render_rows by done.
      rewrite fmap_app. by rewrite parse_rows_canonical. }
    split; [done|]. rewrite Hread, RenderHosts_concat, fmap_app. simpl.
    rewrite concat_strings_snoc_empty. unfold render_rows.
    by rewrite <- list_fmap_compose.
Qed.

Lemma render_parse_canonical_rows_witness :
  RenderHosts (ReadHosts (render_rows [mkHost "127.0.0.1" ["localhost"];
                                       mkHost "10.0.0.5" ["foo.test"; "bar.test"]]) [])
  = render_rows [mkHost "127.0.0.1" ["localhost"]; mkHost "10.0.0.5" ["foo.test"; "bar.test"]].
Proof.
  apply (proj2 render_parse_canonical_rows).
  intros host Hhost.
  repeat (apply elem_of_cons in Hhost as [->|Hhost]; [reflexivity|]).
  by apply elem_of_nil in Hhost.
Defined.

(** ** The fields that Fields yields are tokens *)

Lemma space_width_prefix x s : space_width (x +:+ s) = 0 → space_width x = 0.
Proof.
  destruct x as [|c [|c1 [|c2 x]]]; rewrite ?append_cons, ?append_nil_l; simpl.
  - done.
  - destruct (asciiSpace c); [done|]. done.
  - destruct (asciiSpace c); [done|]. destruct (space2 c c1); [done|]. done.
  - done.
Qed.

Lemma clean_in_nospace cur s : clean_in cur s → nospace cur = true.
Proof.
  induction cur as [|c b IH]; [done|]. intros [Hw Hb].
  cbn [nospace]. apply andb_true_iff. split; [|by apply IH].
  apply bool_decide_eq_true. by apply space_width_prefix in Hw.
Qed.

Lemma clean_in_snoc cur c r :
  clean_in cur (String c r) → space_width (String c r) = 0 →
  clean_in (cur +:+ String c "") r.
Proof.
  intros Hcur Hc. induction cur as [|c' b IH].
  - rewrite append_nil_l. split; [done|done].
  - destruct Hcur as [Hw Hb]. rewrite append_cons. split; [|by apply IH].
    rewrite <- append_cons, append_assoc.
    by change (String c "" +:+ r) with (String c r).
Qed.

Lemma flush_token cur s f : clean_in cur s → f ∈ flush cur → token f = true.
Proof.
  intros Hcur Hf. destruct cur as [|c b]; [by apply elem_of_nil in Hf|].
  apply list_elem_of_singleton in Hf as ->.
  unfold token. by rewrite (clean_in_nospace _ _ Hcur).
Qed.

Lemma Fields_go_tokens n : ∀ s cur f,
  String.length s ≤ n → clean_in cur s → f ∈ Fields_go cur s → token f = true.
Proof.
  induction n as [|n IH]; intros s cur f Hlen Hcur Hf.
  - destruct s; [|simpl in Hlen; lia]. by apply (flush_token cur "").
  - destruct s as [|c r]; [by apply (flush_token cur "")|].
    simpl in Hlen. cbn [Fields_go] in Hf.
    destruct (space_width (String c r)) as [|[|[|w]]] eqn:Hw.
    + apply (IH r (cur +:+ String c "")); [lia|by apply clean_in_snoc|done].
    + apply elem_of_app in Hf as [Hf|Hf]; [by apply (flush_token cur (String c r))|].
      apply (IH r ""); [lia|done|done].
    + destruct r as [|c1 r2]; [by apply (flush_token cur (String c ""))|].
      apply elem_of_app in Hf as [Hf|Hf]; [by apply (flush_token cur (String c (String c1 r2)))|].
      simpl in Hlen. apply (IH r2 ""); [lia|done|done].
    + destruct r as [|c1 [|c2 r3]].
      * by apply (flush_token cur (String c "")).
      * by apply (flush_token cur (String c (String c1 ""))).
      * apply elem_of_app in Hf as [Hf|Hf];
          [by apply (flush_token cur (String c (String c1 (String c2 r3))))|].
        simpl in Hlen. apply (IH r3 ""); [lia|done|done].
Qed.

Lemma Fields_tokens s f : f ∈ Fields s → token f = true.
Proof. apply (Fields_go_tokens (String.length s) s ""); [lia|done]. Qed.

(** ** TrimSpace removes white space at both ends, and nothing else *)

Lemma space_width_1 c r : space_width (String c r) = 1 → asciiSpace c = true.
Proof.
  simpl. destruct (asciiSpace c); [done|].
  destruct r as [|c1 [|c2 r]]; [done| |]; destruct (space2 c c1); try done.
  by destruct (space3 c c1 c2).
Qed.

Lemma space_width_2 c r :
  space_width (String c r) = 2 →
  ∃ c1 r2, r = String c1 r2 ∧ ∀ a, space_width (String c (String c1 a)) = 2.
Proof.
  simpl. destruct (asciiSpace c) eqn:Hc; [done|].
  destruct r as [|c1 r2]; [done|]. destruct (space2 c c1) eqn:H2.
  - intros _. exists c1, r2. split; [done|]. intros a. simpl. by rewrite ?Hc, ?H2.
  - destruct r2 as [|c2 r3]; [done|]. by destruct (space3 c c1 c2).
Qed.

Lemma space_width_3 c r w :
  space_width (String c r) = S (S (S w)) →
  ∃ c1 c2 r3, r = String c1 (String c2 r3)
              ∧ ∀ a, space_width (String c (String c1 (String c2 a))) = 3.
Proof.
  simpl. destruct (asciiSpace c) eqn:Hc; [done|].
  destruct r as [|c1 r2]; [done|]. destruct (space2 c c1) eqn:H2; [done|].
  destruct r2 as [|c2 r3]; [done|]. destruct (space3 c c1 c2) eqn:H3; [|done].
  intros _. exists c1, c2, r3. split; [done|]. intros a. simpl. by rewrite ?Hc, ?H2, ?H3.
Qed.

(** The four cases of a scan at a non-empty string. *)
Lemma space_width_cases c r :
  space_width (String c r) = 0
  ∨ (asciiSpace c = true ∧ space_width (String c r) = 1)
  ∨ (∃ c1 r2, r = String c1 r2 ∧ ∀ a, space_width (String c (String c1 a)) = 2)
  ∨ (∃ c1 c2 r3, r = String c1 (String c2 r3)
                 ∧ ∀ a, space_width (String c (String c1 (String c2 a))) = 3).
Proof.
  destruct (space_width (String c r)) as [|[|[|w]]] eqn:Hw.
  - by left.
  - right; left. split; [by apply space_width_1 in Hw|done].
  - right; right; left. by apply space_width_2.
  - right; right; right. by apply (space_width_3 c r w).
Qed.

Lemma trimLeft_split_bounded n : ∀ s,
  String.length s ≤ n → ∃ a, s = a +:+ trimLeft s ∧ all_space a = true.
Proof.
  induction n as [|n IH]; intros s Hlen.
  - destruct s; [|simpl in Hlen; lia]. by exists "".
  - destruct s as [|c r]; [by exists ""|]. simpl in Hlen.
    destruct (space_width_cases c r)
      as [Hw|[[Hc Hw]|[(c1 & r2 & -> & Hw)|(c1 & c2 & r3 & -> & Hw)]]].
    + exists "". by rewrite trimLeft_nonspace.
    + destruct (IH r) as (a & Ha & Hsp); [lia|].
      exists (String c a). cbn [trimLeft]. rewrite Hw, append_cons, <- Ha.
      split; [done|]. by rewrite all_space_space.
    + simpl in Hlen. destruct (IH r2) as (a & Ha & Hsp); [lia|].
      exists (String c (String c1 a)). cbn [trimLeft all_space].
      rewrite !Hw, !append_cons, <- Ha. done.
    + simpl in Hlen. destruct (IH r3) as (a & Ha & Hsp); [lia|].
      exists (String c (String c1 (String c2 a))). cbn [trimLeft all_space].
      rewrite !Hw, !append_cons, <- Ha. done.
Qed.

Lemma trimLeft_split s : ∃ a, s = a +:+ trimLeft s ∧ all_space a = true.
Proof. by apply (trimLeft_split_bounded (String.length s)). Qed.

Lemma trimLeft_head_bounded n : ∀ s, String.length s ≤ n → space_width (trimLeft s) = 0.
Proof.
  induction n as [|n IH]; intros s Hlen.
  - by destruct s; [|simpl in Hlen; lia].
  - destruct s as [|c r]; [done|]. simpl in Hlen.
    destruct (space_width_cases c r)
      as [Hw|[[Hc Hw]|[(c1 & r2 & -> & Hw)|(c1 & c2 & r3 & -> & Hw)]]].
    + by rewrite trimLeft_nonspace.
    + cbn [trimLeft]. rewrite Hw. apply IH. lia.
    + cbn [trimLeft]. rewrite Hw. apply IH. simpl in Hlen. lia.
    + cbn [trimLeft]. rewrite Hw. apply IH. simpl in Hlen. lia.
Qed.

Lemma trimRight_split s : ∃ b, s = trimRight s +:+ b ∧ all_space b = true.
Proof.
  induction s as [|c r (b & Hb & Hsp)]; [by exists ""|].
  cbn [trimRight]. destruct (all_space (String c r)) eqn:Hall.
  - by exists (String c r).
  - exists b. by rewrite append_cons, <- Hb.
Qed.

Lemma all_space_app_bounded n : ∀ y b,
  String.length y ≤ n → all_space y = true → all_space (y +:+ b) = all_space b.
Proof.
  induction n as [|n IH]; intros y b Hlen Hy.
  - by destruct y; [|simpl in Hlen; lia].
  - destruct y as [|c r]; [done|]. simpl in Hlen.
    destruct (space_width_cases c r)
      as [Hw|[[Hc Hw]|[(c1 & r2 & -> & Hw)|(c1 & c2 & r3 & -> & Hw)]]].
    + by rewrite all_space_nonspace in Hy.
    + rewrite all_space_space in Hy by done.
      rewrite append_cons, all_space_space by done. apply IH; [lia|done].
    + cbn [all_space] in Hy. rewrite Hw in Hy.
      rewrite !append_cons. cbn [all_space]. rewrite Hw.
      apply IH; [simpl in Hlen; lia|done].
    + cbn [all_space] in Hy. rewrite Hw in Hy.
      rewrite !append_cons. cbn [all_space]. rewrite Hw.
      apply IH; [simpl in Hlen; lia|done].
Qed.

Lemma append_eq_nil (x y : string) : "" = x +:+ y → y = "".
Proof. destruct x; [by rewrite append_nil_l|by rewrite append_cons]. Qed.

Lemma trimRight_no_trailing s x y :
  trimRight s = x +:+ y → y ≠ "" → all_space y = false.
Proof.
  revert x. induction s as [|c r IH]; intros x Hs Hy.
  - by apply append_eq_nil in Hs.
  - cbn [trimRight] in Hs. destruct (all_space (String c r)) eqn:Hall.
    + by apply append_eq_nil in Hs.
    + destruct x as [|c' x'].
      * rewrite append_nil_l in Hs. subst y.
        destruct (trimRight_split r) as (b & Hb & Hsp).
        destruct (all_space (String c (trimRight r))) eqn:Hy'; [|done].
        pose proof (all_space_app_bounded _ _ b (le_n _) Hy') as Happ.
        rewrite append_cons, <- Hb, Hsp in Happ. congruence.
      * rewrite append_cons in Hs. injection Hs as -> Hs. by apply (IH x').
Qed.

Lemma trimRight_head s : space_width s = 0 → space_width (trimRight s) = 0.
Proof.
  intros Hs. destruct (trimRight_split s) as (b & Hb & _).
  rewrite Hb in Hs. by apply space_width_prefix in Hs.
Qed.

(** [TrimSpace] cuts white space off both ends, and what it returns
    neither begins nor ends with white space. *)
Lemma TrimSpace_spec s :
  (∃ a b, s = a +:+ TrimSpace s +:+ b ∧ all_space a = true ∧ all_space b = true)
  ∧ space_width (TrimSpace s) = 0
  ∧ (∀ x y, TrimSpace s = x +:+ y → y ≠ "" → all_space y = false).
Proof.
  unfold TrimSpace. split; [|split].
  - destruct (trimLeft_split s) as (a & Ha & Hsa).
    destruct (trimRight_split (trimLeft s)) as (b & Hb & Hsb).
    exists a, b. by rewrite <- Hb, <- Ha.
  - apply trimRight_head. by apply (trimLeft_head_bounded (String.length s)).
  - apply trimRight_no_trailing.
Qed.

(** ** ReadHosts, row by row *)

(** C8: [ReadHosts] cuts the text at every newline and turns each row,
    with the white space around it trimmed, into one entry at the row's
    index: the trimmed row itself when it is empty or starts with '#', the
    trimmed row itself when it has fewer than two fields, and otherwise a
    Record of the first field as IP and the other fields, in order, as
    hostnames.  The trimmed row is the row without the white space at its
    two ends, and the fields are non-empty and free of white space. *)
Theorem ReadHosts_classifies_rows (contents : string) :
  let rows := Split contents "010"%char in
  let hosts := ReadHosts contents [] in
  Join rows NL = contents
  ∧ (∀ row, row ∈ rows → has_byte "010"%char row = false)
  ∧ length hosts = length rows
  ∧ ∀ i row, rows !! i = Some row →
      let r := TrimSpace row in
      (∃ a b, row = a +:+ r +:+ b ∧ all_space a = true ∧ all_space b = true)
      ∧ space_width r = 0
      ∧ (∀ x y, r = x +:+ y → y ≠ EmptyString → all_space y = false)
      ∧ (∀ f, f ∈ Fields r → token f = true)
      ∧ (r = EmptyString ∨ HasPrefix r "#"%char = true → hosts !! i = Some (EStr r))
      ∧ (length (Fields r) < 2 → hosts !! i = Some (EStr r))
      ∧ (∀ ip names,
           r ≠ EmptyString → HasPrefix r "#"%char = false →
           Fields r = ip :: names → names ≠ [] →
           hosts !! i = Some (EHost (mkHost ip names))).
Proof.
  intros rows hosts. subst rows hosts.
  split; [apply Join_Split|]. split; [apply Split_pieces|].
  rewrite ReadHosts_parse. split; [by rewrite length_fmap|].
  intros i row Hrow r. rewrite list_lookup_fmap, Hrow. simpl.
  destruct (TrimSpace_spec row) as (Hsplit & Hhead & Htail). fold r in Hsplit, Hhead, Htail.
  split; [done|]. split; [done|]. split; [done|].
  split; [intros f; apply Fields_tokens|].
  unfold parse_row. fold r. split; [|split].
  - intros [->|Hp]; [done|]. rewrite Hp. by rewrite orb_true_r.
  - intros Hlen. destruct (bool_decide (r = "") || HasPrefix r "#"); [done|].
    destruct (Fields r) as [|ip [|name names]]; simpl in Hlen; [done|done|lia].
  - intros ip names Hr Hp Hf Hnames.
    rewrite bool_decide_false by done. rewrite Hp, Hf. simpl.
    by destruct names.
Qed.

Lemma ReadHosts_classifies_rows_witness :
  ReadHosts ("# c" +:+ NL +:+ " 10.0.0.5  foo.test bar.test ") [] !! 1
  = Some (EHost (mkHost "10.0.0.5" ["foo.test"; "bar.test"])).
Proof.
  apply (proj2 (proj2 (proj2 (ReadHosts_classifies_rows
           ("# c" +:+ NL +:+ " 10.0.0.5  foo.test bar.test ")))) 1
           " 10.0.0.5  foo.test bar.test ").
  - reflexivity.
  - discriminate.
  - reflexivity.
  - reflexivity.
  - discriminate.
Defined.

(** * Further properties of the code *)

(** ** uniqueStrings *)

Lemma dedup_first_sublist l : dedup_first l `sublist_of` l.
Proof.
  induction l as [|x l IH]; simpl; [done|].
  apply sublist_skip. etrans; [apply sublist_filter|done].
Qed.

(** X1: [uniqueStrings] always returns; the result has no duplicates, has
    the members of the input, keeps their order, and is not changed by what
    follows in the input: the result for a longer input starts with it. *)
Theorem uniqueStrings_first_occurrences (s : list string) :
  ∃ r, uniqueStrings s = Some r
       ∧ NoDup r
       ∧ (∀ x, x ∈ r ↔ x ∈ s)
       ∧ r `sublist_of` s
       ∧ ∀ t, ∃ r', uniqueStrings (s ++ t) = Some (r ++ r').
Proof.
  exists (dedup_first s). split; [apply uniqueStrings_dedup|].
  split; [apply dedup_first_NoDup|]. split; [intros x; apply dedup_first_elem|].
  split; [apply dedup_first_sublist|].
  intros t. rewrite uniqueStrings_dedup, dedup_first_app. eauto.
Qed.

(** X2: [uniqueStrings] returns a slice without duplicates as it is. *)
Theorem uniqueStrings_distinct_unchanged (s : list string) :
  NoDup s → uniqueStrings s = Some s.
Proof. intros Hs. by rewrite uniqueStrings_dedup, dedup_first_id. Qed.

Lemma uniqueStrings_distinct_unchanged_witness :
  uniqueStrings ["b"; "a"; "c"] = Some ["b"; "a"; "c"].
Proof.
  apply uniqueStrings_distinct_unchanged.
  repeat (apply NoDup_cons; split;
          [intros H; repeat (apply elem_of_cons in H as [H|H]; [discriminate H|]);
           by apply elem_of_nil in H|]).
  apply NoDup_nil_2.
Defined.

(** ** removeHostname *)

Lemma removeHostname_other l remove x :
  x ≠ remove → x ∈ removeHostname l remove ↔ x ∈ l.
Proof.
  intros Hx. destruct (decide (remove ∈ l)) as [Hin|Hn].
  - apply list_elem_of_split_r in Hin as (l1 & l2 & -> & Hn).
    rewrite removeHostname_split by done.
    rewrite !elem_of_app, elem_of_cons. naive_solver.
  - by rewrite removeHostname_absent.
Qed.

Lemma removeHostname_distinct l remove :
  NoDup l → removeHostname l remove = filter (λ x, x ≠ remove) l.
Proof.
  intros Hl. destruct (decide (remove ∈ l)) as [Hin|Hn].
  - apply list_elem_of_split_r in Hin as (l1 & l2 & -> & Hn).
    rewrite removeHostname_split by done.
    apply NoDup_app in Hl as (_ & Hl1 & _).
    rewrite filter_app, filter_cons_False by (intros H; by apply H).
    rewrite !filter_all_id; [done| |].
    + intros x Hx ->. done.
    + intros x Hx ->. apply (Hl1 remove Hx). by left.
  - rewrite removeHostname_absent by done. symmetry.
    apply filter_all_id. intros x Hx ->. done.
Qed.

(** X3: [removeHostname] takes out one element when the name occurs, and
    touches no other name: a name other than the removed one is in the
    result exactly when it was in the list. *)
Theorem removeHostname_one_element (hostnames : list string) (remove : string) :
  (remove ∈ hostnames →
   length (removeHostname hostnames remove) + 1 = length hostnames)
  ∧ (∀ x, x ≠ remove → x ∈ removeHostname hostnames remove ↔ x ∈ hostnames).
Proof.
  split.
  - intros Hin. apply list_elem_of_split_r in Hin as (l1 & l2 & -> & Hn).
    rewrite removeHostname_split by done. rewrite !length_app. simpl. lia.
  - intros x. apply removeHostname_other.
Qed.

Lemma removeHostname_one_element_witness :
  length (removeHostname ["a"; "b"; "a"] "a") + 1 = length ["a"; "b"; "a"].
Proof.
  apply (proj1 (removeHostname_one_element ["a"; "b"; "a"] "a")).
  apply elem_of_cons. by left.
Defined.

Lemma removeHostnames_names_distinct l names :
  NoDup l → foldl removeHostname l names = filter (λ x, x ∉ names) l.
Proof.
  revert l. induction names as [|n names IH]; intros l Hl; simpl.
  - symmetry. apply filter_all_id. intros x _. apply not_elem_of_nil.
  - rewrite removeHostname_distinct by done.
    rewrite IH by (by apply NoDup_filter).
    rewrite list_filter_filter. apply list_filter_iff. intros x.
    rewrite not_elem_of_cons. tauto.
Qed.

(** X4: on a list without duplicates [removeHostname] removes the name
    altogether, and several removals in a row remove all the names; when
    the name occurs twice, it is still in the list after one removal. *)
Theorem removeHostname_distinct_removes_all (hostnames : list string) :
  (NoDup hostnames →
   ∀ names, foldl removeHostname hostnames names = filter (λ x, x ∉ names) hostnames)
  ∧ (∀ remove l1 l2,
       hostnames = l1 ++ remove :: l2 → remove ∈ l1 →
       remove ∈ removeHostname hostnames remove).
Proof.
  split.
  - intros Hl names. by apply removeHostnames_names_distinct.
  - intros remove l1 l2 -> Hin.
    destruct (decide (remove ∈ l2)) as [Hl2|Hl2].
    + apply list_elem_of_split_r in Hl2 as (m1 & m2 & -> & Hn).
      replace (l1 ++ remove :: m1 ++ remove :: m2)
        with ((l1 ++ remove :: m1) ++ remove :: m2) by (by rewrite <- (assoc_L (++))).
      rewrite removeHostname_split by done.
      rewrite !elem_of_app. left. by left.
    + rewrite removeHostname_split by done. apply elem_of_app. by left.
Qed.

Lemma removeHostname_distinct_removes_all_witness :
  foldl removeHostname ["a"; "b"; "c"] ["c"; "a"] = filter (λ x, x ∉ ["c"; "a"]) ["a"; "b"; "c"]
  ∧ "a" ∈ removeHostname ["a"; "b"; "a"] "a".
Proof.
  split.
  - apply (proj1 (removeHostname_distinct_removes_all ["a"; "b"; "c"])).
    repeat (apply NoDup_cons; split;
            [intros H; repeat (apply elem_of_cons in H as [H|H]; [discriminate H|]);
             by apply elem_of_nil in H|]).
    apply NoDup_nil_2.
  - apply (proj2 (removeHostname_distinct_removes_all ["a"; "b"; "a"]) "a" ["a"; "b"] []).
    + reflexivity.
    + apply elem_of_cons. by left.
Defined.

(** ** removeHostnames *)

Lemma removeHostnames_fold_omap names hosts :
  foldr (removeHostnames_step names) [] hosts = omap (removeHostnames_entry names) hosts.
Proof.
  induction hosts as [|e hosts IH]; [done|]. simpl. rewrite IH.
  destruct e as [row|host|items]; simpl; try done. by case_bool_decide.
Qed.

Lemma removeHostnames_omap hosts names :
  removeHostnames hosts names = Some (omap (removeHostnames_entry names) hosts).
Proof. by rewrite removeHostnames_foldr, removeHostnames_fold_omap. Qed.

Lemma removeHostnames_names_absent l names :
  (∀ n, n ∈ names → n ∉ l) → foldl removeHostname l names = l.
Proof.
  induction names as [|n names IH]; intros H; simpl; [done|].
  rewrite removeHostname_absent by (apply H; by left).
  apply IH. intros m Hm. apply H. by right.
Qed.

Lemma removeHostnames_names_nil names : foldl removeHostname [] names = [].
Proof. apply removeHostnames_names_absent. intros n _. apply not_elem_of_nil. Qed.

Lemma removeHostnames_names_other l names x :
  x ∉ names → x ∈ foldl removeHostname l names ↔ x ∈ l.
Proof.
  revert l. induction names as [|n names IH]; intros l Hx; simpl; [done|].
  apply not_elem_of_cons in Hx as [Hn Hx].
  rewrite IH by done. by apply removeHostname_other.
Qed.

Lemma resolve_names_same l l' name :
  (name ∈ l ↔ name ∈ l') → resolve_names l name = resolve_names l' name.
Proof.
  intros H. destruct (resolve_names l name) eqn:E.
  - symmetry. apply resolve_names_elem, H. by apply resolve_names_elem.
  - symmetry. apply resolve_names_absent. intros Hin. apply H in Hin.
    apply resolve_names_elem in Hin. congruence.
Qed.

(** X5: the loop of [cmdRemoveHost], which runs over the indices from the
    end and deletes while it runs, treats every entry once and on its own:
    strings stay, in order; a Record keeps its IP and loses the names; a
    Record left without a name goes. *)
Theorem removeHostnames_entry_by_entry (hosts : list Entry) (hostnames : list string) :
  removeHostnames hosts hostnames = Some (omap (removeHostnames_entry hostnames) hosts).
Proof. apply removeHostnames_omap. Qed.

Lemma omap_cons_entry (f : Entry → option Entry) e (l : list Entry) :
  omap f (e :: l) = match f e with Some y => y :: omap f l | None => omap f l end.
Proof. reflexivity. Qed.

Lemma removeHostnames_omap_absent (hosts : list Entry) names :
  records_nonempty hosts → (∀ n, n ∈ names → no_hostname n hosts) →
  omap (removeHostnames_entry names) hosts = hosts.
Proof.
  intros Hne Hno.
  induction hosts as [|e hosts IH]; [done|]. rewrite omap_cons_entry.
  rewrite IH.
  - destruct e as [row|host|items]; simpl; try done.
    rewrite removeHostnames_names_absent.
    + rewrite bool_decide_true; [by destruct host|].
      assert (Hostnames host ≠ []) by (apply Hne; by left).
      destruct (Hostnames host); [done|simpl; lia].
    + intros n Hn. apply (Hno n Hn). by left.
  - intros h Hh. apply Hne. by right.
  - intros n Hn h Hh. apply (Hno n Hn). by right.
Qed.

(** X6: [removeHostnames] returns the slice unchanged when no Record holds
    any of the names and every Record has a hostname. *)
Theorem removeHostnames_absent_names (hosts : list Entry) (hostnames : list string) :
  records_nonempty hosts → (∀ n, n ∈ hostnames → no_hostname n hosts) →
  removeHostnames hosts hostnames = Some hosts.
Proof.
  intros Hne Hno. by rewrite removeHostnames_omap, removeHostnames_omap_absent.
Qed.

Lemma removeHostnames_absent_names_witness :
  removeHostnames [EStr "# c"; EHost (mkHost "10.0.0.1" ["a"]); EStr ""] ["b"; "c"]
  = Some [EStr "# c"; EHost (mkHost "10.0.0.1" ["a"]); EStr ""].
Proof.
  apply removeHostnames_absent_names.
  - intros h Hh. repeat (apply elem_of_cons in Hh as [Hh|Hh]; [try discriminate Hh|]).
    + injection Hh as ->. discriminate.
    + by apply elem_of_nil in Hh.
  - intros n Hn h Hh.
    repeat (apply elem_of_cons in Hh as [Hh|Hh]; [try discriminate Hh|]).
    + injection Hh as ->. simpl. intros H. apply list_elem_of_singleton in H. subst n.
      repeat (apply elem_of_cons in Hn as [Hn|Hn]; [discriminate Hn|]).
      by apply elem_of_nil in Hn.
    + by apply elem_of_nil in Hh.
Defined.

Lemma removeHostnames_entry_twice names1 names2 e :
  removeHostnames_entry (names1 ++ names2) e
  = match removeHostnames_entry names1 e with
    | Some e1 => removeHostnames_entry names2 e1
    | None => None
    end.
Proof.
  destruct e as [row|host|items]; try done.
  unfold removeHostnames_entry. rewrite foldl_app.
  destruct (bool_decide (0 < length (foldl removeHostname (Hostnames host) names1)))
    eqn:Hlen; [done|].
  apply bool_decide_eq_false in Hlen.
  destruct (foldl removeHostname (Hostnames host) names1); [|simpl in Hlen; lia].
  by rewrite removeHostnames_names_nil.
Qed.

(** X7: removing names in two runs gives the slice that removing all of
    them in one run gives. *)
Theorem removeHostnames_in_two_runs (hosts : list Entry) (names1 names2 : list string) :
  ∃ hosts1, removeHostnames hosts names1 = Some hosts1
            ∧ removeHostnames hosts1 names2 = removeHostnames hosts (names1 ++ names2).
Proof.
  eexists. split; [apply removeHostnames_omap|].
  rewrite !removeHostnames_omap. f_equal.
  induction hosts as [|e hosts IH]; [done|].
  rewrite (omap_cons_entry (removeHostnames_entry names1)).
  rewrite (omap_cons_entry (removeHostnames_entry (names1 ++ names2))).
  rewrite removeHostnames_entry_twice.
  destruct (removeHostnames_entry names1 e) as [e1|]; [|done].
  rewrite omap_cons_entry. by rewrite IH.
Qed.

Lemma removeHostnames_omap_records names (hosts : list Entry) host :
  EHost host ∈ omap (removeHostnames_entry names) hosts →
  ∃ host0, EHost host0 ∈ hosts ∧ IP host = IP host0
           ∧ Hostnames host = foldl removeHostname (Hostnames host0) names.
Proof.
  rewrite <- removeHostnames_fold_omap. intros H.
  apply removeHostnames_fold_records in H as (h0 & ? & ? & ? & _). eauto.
Qed.

(** X8: when the hostnames of every Record are pairwise distinct, a name
    that [removeHostnames] was given is in no Record afterwards, and
    [resolve] does not find it. *)
Theorem removeHostnames_then_resolve (hosts : list Entry) (hostnames : list string)
    (name : string) :
  records_distinct hosts → name ∈ hostnames →
  ∃ hosts', removeHostnames hosts hostnames = Some hosts'
            ∧ no_hostname name hosts' ∧ resolve hosts' name = None.
Proof.
  intros Hd Hname. eexists. split; [apply removeHostnames_omap|].
  assert (Hno : no_hostname name (omap (removeHostnames_entry hostnames) hosts)).
  { intros h Hh. apply removeHostnames_omap_records in Hh as (h0 & Hin & _ & Heq).
    rewrite Heq, removeHostnames_names_distinct by (by apply Hd).
    rewrite list_elem_of_filter. tauto. }
  split; [done|]. by apply resolve_absent.
Qed.

Lemma removeHostnames_then_resolve_witness :
  ∃ hosts', removeHostnames [EHost (mkHost "10.0.0.1" ["a"; "b"]); EHost (mkHost "10.0.0.2" ["b"])]
              ["b"] = Some hosts'
            ∧ no_hostname "b" hosts' ∧ resolve hosts' "b" = None.
Proof.
  apply removeHostnames_then_resolve.
  - intros h Hh.
    repeat (apply elem_of_cons in Hh as [Hh|Hh];
            [injection Hh as ->; simpl;
             repeat (apply NoDup_cons; split;
               [intros H; repeat (apply elem_of_cons in H as [H|H]; [discriminate H|]);
                by apply elem_of_nil in H|]);
             apply NoDup_nil_2|]).
    by apply elem_of_nil in Hh.
  - apply elem_of_cons. by left.
Defined.

(** X9: [removeHostnames] does not change what [resolve] finds for a name
    that is not among the removed ones. *)
Theorem removeHostnames_keeps_other_names (hosts : list Entry) (hostnames : list string)
    (name : string) :
  name ∉ hostnames →
  ∃ hosts', removeHostnames hosts hostnames = Some hosts'
            ∧ resolve hosts' name = resolve hosts name.
Proof.
  intros Hname. eexists. split; [apply removeHostnames_omap|].
  induction hosts as [|e hosts IH]; [done|]. rewrite omap_cons_entry.
  destruct e as [row|host|items]; simpl; try done.
  pose proof (removeHostnames_names_other (Hostnames host) hostnames name Hname) as Hsame.
  case_bool_decide as Hlen; simpl.
  - by rewrite IH, (resolve_names_same _ _ _ Hsame).
  - rewrite IH. rewrite <- (resolve_names_same _ _ _ Hsame).
    by destruct (foldl removeHostname (Hostnames host) hostnames); [|simpl in Hlen; lia].
Qed.

Lemma removeHostnames_keeps_other_names_witness :
  ∃ hosts', removeHostnames [EHost (mkHost "10.0.0.1" ["a"]); EHost (mkHost "10.0.0.2" ["b"])]
              ["a"] = Some hosts'
            ∧ resolve hosts' "b"
              = resolve [EHost (mkHost "10.0.0.1" ["a"]); EHost (mkHost "10.0.0.2" ["b"])] "b".
Proof.
  apply removeHostnames_keeps_other_names.
  intros H. apply list_elem_of_singleton in H. discriminate H.
Defined.

(** ** addHost with resolve and removeHostnames *)

Lemma resolve_app l1 l2 name :
  resolve (l1 ++ l2) name
  = match resolve l1 name with Some ip => Some ip | None => resolve l2 name end.
Proof.
  induction l1 as [|e l1 IH]; [done|]. simpl.
  destruct e as [row|host|items]; try done.
  by destruct (resolve_names (Hostnames host) name).
Qed.

Lemma no_hostname_app name l1 l2 :
  no_hostname name (l1 ++ l2) → no_hostname name l1 ∧ no_hostname name l2.
Proof.
  intros H. split; intros h Hh; apply H, elem_of_app; [by left|by right].
Qed.

Lemma dedup_first_absorb l m : dedup_first (dedup_first l ++ m) = dedup_first (l ++ m).
Proof.
  rewrite !dedup_first_app, (dedup_first_id _ (dedup_first_NoDup l)). f_equal.
  apply list_filter_iff. intros x. by rewrite dedup_first_elem.
Qed.

Lemma addHost_resolve_new hosts ip names name :
  name ∈ names → no_hostname name hosts →
  ∃ hosts', addHost hosts ip names = Some hosts' ∧ resolve hosts' name = Some ip.
Proof.
  intros Hname Hno.
  destruct (first_ip_or_none ip hosts) as [(l1 & host & l2 & -> & Hip & Hnoip)|Hnoip].
  - eexists. split; [by apply addHost_first|].
    apply no_hostname_app in Hno as [Hno1 _].
    rewrite (resolve_first l1 (mkHost ip _) l2 name); [done| |done].
    simpl. apply dedup_first_elem, elem_of_app. by right.
  - eexists. split; [by apply addHost_absent|].
    rewrite (resolve_first hosts (mkHost ip _) [] name); [done| |done].
    simpl. by apply dedup_first_elem.
Qed.

(** X10: after [addHost], [resolve] finds the given IP for every added
    name that no Record held before. *)
Theorem addHost_then_resolve (hosts : list Entry) (ip : string) (hostnames : list string)
    (name : string) :
  name ∈ hostnames → no_hostname name hosts →
  ∃ hosts', addHost hosts ip hostnames = Some hosts' ∧ resolve hosts' name = Some ip.
Proof. apply addHost_resolve_new. Qed.

Lemma addHost_then_resolve_witness :
  ∃ hosts', addHost [EStr "# c"; EHost (mkHost "10.0.0.1" ["a"])] "10.0.0.2" ["b"] = Some hosts'
            ∧ resolve hosts' "b" = Some "10.0.0.2".
Proof.
  apply addHost_then_resolve.
  - apply elem_of_cons. by left.
  - intros h Hh. repeat (apply elem_of_cons in Hh as [Hh|Hh]; [try discriminate Hh|]).
    + injection Hh as ->. simpl. intros H. apply list_elem_of_singleton in H. discriminate H.
    + by apply elem_of_nil in Hh.
Defined.

(** X11: [addHost] does not change what [resolve] finds for a name that is
    not among the added ones. *)
Theorem addHost_keeps_other_names (hosts : list Entry) (ip : string)
    (hostnames : list string) (name : string) :
  name ∉ hostnames →
  ∃ hosts', addHost hosts ip hostnames = Some hosts'
            ∧ resolve hosts' name = resolve hosts name.
Proof.
  intros Hname.
  destruct (first_ip_or_none ip hosts) as [(l1 & host & l2 & -> & Hip & Hnoip)|Hnoip].
  - eexists. split; [by apply addHost_first|].
    rewrite !resolve_app. destruct (resolve l1 name); [done|]. simpl.
    rewrite (resolve_names_same _ (Hostnames host)); [by rewrite Hip|].
    rewrite dedup_first_elem, elem_of_app. tauto.
  - eexists. split; [by apply addHost_absent|].
    rewrite resolve_app. destruct (resolve hosts name); [done|]. simpl.
    rewrite resolve_names_absent; [done|]. by rewrite dedup_first_elem.
Qed.

Lemma addHost_keeps_other_names_witness :
  ∃ hosts', addHost [EHost (mkHost "10.0.0.1" ["a"])] "10.0.0.1" ["b"] = Some hosts'
            ∧ resolve hosts' "a" = resolve [EHost (mkHost "10.0.0.1" ["a"])] "a".
Proof.
  apply addHost_keeps_other_names.
  intros H. apply list_elem_of_singleton in H. discriminate H.
Defined.

(** X12: adding hostnames to an IP in two runs gives the slice that adding
    all of them in one run gives. *)
Theorem addHost_in_two_runs (hosts : list Entry) (ip : string) (names1 names2 : list string) :
  ∃ hosts1, addHost hosts ip names1 = Some hosts1
            ∧ addHost hosts1 ip names2 = addHost hosts ip (names1 ++ names2).
Proof.
  destruct (first_ip_or_none ip hosts) as [(l1 & host & l2 & -> & Hip & Hnoip)|Hnoip].
  - eexists. split; [by apply addHost_first|].
    rewrite !addHost_first by done. simpl.
    by rewrite dedup_first_absorb, (assoc_L (++)).
  - eexists. split; [by apply addHost_absent|].
    rewrite addHost_first, addHost_absent by done. simpl.
    by rewrite dedup_first_absorb.
Qed.

(** X13: [removeHostnames] undoes [addHost]: when the hostnames of every
    Record are pairwise distinct and not empty and no Record holds any of
    the added names, removing these names after adding them gives the
    slice back. *)
Theorem addHost_then_removeHostnames (hosts : list Entry) (ip : string)
    (hostnames : list string) :
  records_distinct hosts → records_nonempty hosts →
  (∀ n, n ∈ hostnames → no_hostname n hosts) →
  ∃ hosts1, addHost hosts ip hostnames = Some hosts1
            ∧ removeHostnames hosts1 hostnames = Some hosts.
Proof.
  intros Hd Hne Hno.
  assert (Hgone : filter (λ x, x ∉ hostnames) (dedup_first hostnames) = []).
  { apply filter_all_nil. intros x Hx Hn. apply Hn. by apply dedup_first_elem. }
  destruct (first_ip_or_none ip hosts) as [(l1 & host & l2 & -> & Hip & Hnoip)|Hnoip].
  - eexists. split; [by apply addHost_first|].
    rewrite removeHostnames_omap. f_equal.
    assert (Hhost : EHost host ∈ l1 ++ EHost host :: l2).
    { apply elem_of_app. right. by left. }
    assert (Hold : ∀ n, n ∈ hostnames → n ∉ Hostnames host).
    { intros n Hn. by apply (Hno n Hn). }
    rewrite omap_app, omap_cons_entry.
    rewrite !removeHostnames_omap_absent.
    + cbn [removeHostnames_entry Hostnames IP].
      rewrite removeHostnames_names_distinct by apply dedup_first_NoDup.
      rewrite dedup_first_app, (dedup_first_id _ (Hd _ Hhost)), filter_app.
      rewrite (filter_all_id _ (Hostnames host)) by (intros x Hx Hn; by apply (Hold x)).
      rewrite list_filter_filter.
      rewrite (filter_all_nil _ (dedup_first hostnames)).
      * rewrite app_nil_r. rewrite bool_decide_true.
        -- rewrite <- Hip. by destruct host.
        -- specialize (Hne _ Hhost). destruct (Hostnames host); [done|simpl; lia].
      * intros x Hx [Hn _]. apply Hn. by apply dedup_first_elem.
    + intros h Hh. apply Hne, elem_of_app. right. by right.
    + intros n Hn h Hh. apply (Hno n Hn), elem_of_app. right. by right.
    + intros h Hh. apply Hne, elem_of_app. by left.
    + intros n Hn h Hh. apply (Hno n Hn), elem_of_app. by left.
  - eexists. split; [by apply addHost_absent|].
    rewrite removeHostnames_omap. f_equal.
    rewrite omap_app, removeHostnames_omap_absent by done.
    rewrite omap_cons_entry. cbn [removeHostnames_entry Hostnames IP].
    rewrite removeHostnames_names_distinct by apply dedup_first_NoDup.
    rewrite Hgone. simpl. by rewrite app_nil_r.
Qed.

Lemma addHost_then_removeHostnames_witness :
  ∃ hosts1, addHost [EHost (mkHost "10.0.0.1" ["a"])] "10.0.0.1" ["b"; "c"] = Some hosts1
            ∧ removeHostnames hosts1 ["b"; "c"] = Some [EHost (mkHost "10.0.0.1" ["a"])].
Proof.
  apply addHost_then_removeHostnames.
  - intros h Hh. apply list_elem_of_singleton in Hh. injection Hh as ->. simpl.
    apply NoDup_singleton.
  - intros h Hh. apply list_elem_of_singleton in Hh. injection Hh as ->. discriminate.
  - intros n Hn h Hh. apply list_elem_of_singleton in Hh. injection Hh as ->. simpl.
    intros H. apply list_elem_of_singleton in H. subst n.
    repeat (apply elem_of_cons in Hn as [Hn|Hn]; [discriminate Hn|]).
    by apply elem_of_nil in Hn.
Defined.

(** ** removeIP *)

Lemma removeIP_fold_no_ip ip hosts : no_ip ip (foldr (removeIP_step ip) [] hosts).
Proof.
  induction hosts as [|e hosts IH]; intros h Hh; [by apply elem_of_nil in Hh|].
  simpl in Hh. destruct e as [row|host|items]; simpl in Hh.
  - apply elem_of_cons in Hh as [Hh|Hh]; [discriminate Hh|by apply IH].
  - case_bool_decide as Hip.
    + apply list_elem_of_singleton in Hh. discriminate Hh.
    + apply elem_of_cons in Hh as [Hh|Hh]; [|by apply IH]. by injection Hh as ->.
  - apply elem_of_cons in Hh as [Hh|Hh]; [discriminate Hh|by apply IH].
Qed.

(** X14: [removeIP] returns the slice unchanged when no Record has the
    IP. *)
Theorem removeIP_absent_ip (hosts : list Entry) (ip : string) :
  no_ip ip hosts → removeIP hosts ip = Some hosts.
Proof. apply removeIP_absent. Qed.

Lemma removeIP_absent_ip_witness :
  removeIP [EStr "# c"; EHost (mkHost "10.0.0.1" ["a"]); EStr ""] "10.0.0.2"
  = Some [EStr "# c"; EHost (mkHost "10.0.0.1" ["a"]); EStr ""].
Proof.
  apply removeIP_absent_ip.
  intros h Hh. repeat (apply elem_of_cons in Hh as [Hh|Hh]; [try discriminate Hh|]).
  - injection Hh as ->. discriminate.
  - by apply elem_of_nil in Hh.
Defined.

(** X15: [removeIP] always returns; no Record of the slice it returns has
    the IP, and removing the IP again changes nothing. *)
Theorem removeIP_leaves_no_record_of_ip (hosts : list Entry) (ip : string) :
  ∃ hosts', removeIP hosts ip = Some hosts'
            ∧ no_ip ip hosts' ∧ removeIP hosts' ip = Some hosts'.
Proof.
  eexists. split; [apply removeIP_foldr|].
  split; [apply removeIP_fold_no_ip|].
  apply removeIP_absent, removeIP_fold_no_ip.
Qed.

Lemma records_of_app l1 l2 : records_of (l1 ++ l2) = records_of l1 ++ records_of l2.
Proof.
  induction l1 as [|e l1 IH]; [done|]. simpl.
  destruct e; simpl; by rewrite ?IH.
Qed.

(** X16: when the slice has a Record of the IP, [removeIP] returns the
    entries in front of the first such Record followed by one slice
    element; [RenderHosts] writes the entries in front only, and they hold
    all the Records that are left. *)
Theorem removeIP_keeps_front_only (l1 l2 : list Entry) (host : Host) (ip : string) :
  IP host = ip → no_ip ip l1 →
  ∃ tail, removeIP (l1 ++ EHost host :: l2) ip = Some (l1 ++ [ESlice tail])
          ∧ RenderHosts (l1 ++ [ESlice tail]) = RenderHosts l1
          ∧ records_of (l1 ++ [ESlice tail]) = records_of l1.
Proof.
  intros Hip Hno. eexists. split; [by apply removeIP_first|]. split.
  - pose proof (removeIP_first_render l1 host l2 ip Hip Hno) as H.
    rewrite removeIP_first in H by done. simpl in H. by injection H.
  - rewrite records_of_app. simpl. by rewrite app_nil_r.
Qed.

Lemma removeIP_keeps_front_only_witness :
  ∃ tail, removeIP ([EStr "# c"] ++ EHost (mkHost "10.0.0.1" ["a"])
                      :: [EHost (mkHost "10.0.0.2" ["b"]); EStr ""]) "10.0.0.1"
          = Some ([EStr "# c"] ++ [ESlice tail])
          ∧ RenderHosts ([EStr "# c"] ++ [ESlice tail]) = RenderHosts [EStr "# c"]
          ∧ records_of ([EStr "# c"] ++ [ESlice tail]) = records_of [EStr "# c"].
Proof.
  apply removeIP_keeps_front_only.
  - reflexivity.
  - intros h Hh. apply list_elem_of_singleton in Hh. discriminate Hh.
Defined.

(** ** What ReadHosts yields *)

Lemma Fields_go_head n : ∀ s cur,
  String.length s ≤ n → cur ≠ "" → ∃ t fs, Fields_go cur s = (cur +:+ t) :: fs.
Proof.
  induction n as [|n IH]; intros s cur Hlen Hcur.
  - destruct s; [|simpl in Hlen; lia]. exists "", [].
    rewrite append_nil_r. by destruct cur.
  - assert (Hflush : ∀ fs, ∃ t fs', flush cur ++ fs = (cur +:+ t) :: fs').
    { intros fs. exists "", fs. rewrite append_nil_r. by destruct cur. }
    assert (Hflush0 : ∃ t fs', flush cur = (cur +:+ t) :: fs').
    { exists "", []. rewrite append_nil_r. by destruct cur. }
    destruct s as [|c r]; [done|].
    simpl in Hlen. cbn [Fields_go].
    destruct (space_width (String c r)) as [|[|[|w]]].
    + destruct (IH r (cur +:+ String c "")) as (t & fs & H); [lia|by destruct cur|].
      exists (String c t), fs. rewrite H. by rewrite append_assoc.
    + apply Hflush.
    + destruct r as [|c1 r2]; [done|apply Hflush].
    + destruct r as [|c1 [|c2 r3]]; [done|done|apply Hflush].
Qed.

Lemma Fields_first_byte c r ip names :
  space_width (String c r) = 0 → Fields (String c r) = ip :: names →
  HasPrefix ip "#"%char = HasPrefix (String c r) "#"%char.
Proof.
  intros Hw Hf. unfold Fields in Hf. rewrite Fields_go_nonspace in Hf by done.
  destruct (Fields_go_head (String.length r) r ("" +:+ String c "")) as (t & fs & H);
    [lia|done|].
  rewrite H in Hf. by injection Hf as <- _.
Qed.

Lemma parse_row_canonical_record row host :
  parse_row row = EHost host → canonical host = true.
Proof.
  intros (Hne & Hp & Hf & Hnames)%parse_row_record_row.
  destruct (TrimSpace_spec row) as (_ & Hw & _).
  assert (Htok : ∀ f, f ∈ IP host :: Hostnames host → token f = true).
  { intros f Hin. apply (Fields_tokens (TrimSpace row)). by rewrite Hf. }
  unfold canonical. rewrite (Htok (IP host)) by (by left).
  destruct (TrimSpace row) as [|c r] eqn:Hr; [done|].
  rewrite (Fields_first_byte c r _ _ Hw Hf), Hp.
  rewrite bool_decide_false by done. simpl.
  apply forallb_forall. intros f Hin. apply Htok. right. by apply list_elem_of_In.
Qed.

Lemma ReadHosts_canonical contents host :
  EHost host ∈ ReadHosts contents [] → canonical host = true.
Proof.
  rewrite ReadHosts_parse. intros (row & Hrow & _)%list_elem_of_fmap.
  by apply (parse_row_canonical_record row).
Qed.

(** X17: in every Record that [ReadHosts] yields, the IP and the hostnames
    are non-empty and free of white space, the IP does not start with '#',
    and there is at least one hostname. *)
Theorem ReadHosts_records_canonical (contents : string) (host : Host) :
  EHost host ∈ ReadHosts contents [] →
  token (IP host) = true ∧ HasPrefix (IP host) "#"%char = false
  ∧ Hostnames host ≠ [] ∧ ∀ name, name ∈ Hostnames host → token name = true.
Proof.
  intros (Hip & Hp & Hne & Hnames)%ReadHosts_canonical%canonical_inv.
  split; [done|]. split; [done|]. split; [done|].
  intros name Hin. rewrite forallb_forall in Hnames. apply Hnames.
  by apply list_elem_of_In.
Qed.

Lemma ReadHosts_records_canonical_witness :
  token "10.0.0.5" = true ∧ HasPrefix "10.0.0.5" "#"%char = false
  ∧ ["foo.test"; "bar.test"] ≠ []
  ∧ ∀ name, name ∈ ["foo.test"; "bar.test"] → token name = true.
Proof.
  apply (ReadHosts_records_canonical scenario (mkHost "10.0.0.5" ["foo.test"; "bar.test"])).
  vm_compute. right. right. by left.
Defined.

Lemma trimRight_fixed r :
  (∀ x y, r = x +:+ y → y ≠ "" → all_space y = false) → trimRight r = r.
Proof.
  induction r as [|c r IH]; intros H; [done|].
  cbn [trimRight]. rewrite (H "" (String c r)) by done.
  f_equal. apply IH. intros x y -> Hy. by apply (H (String c x) y).
Qed.

Lemma TrimSpace_idempotent s : TrimSpace (TrimSpace s) = TrimSpace s.
Proof.
  destruct (TrimSpace_spec s) as (_ & Hw & Htail).
  unfold TrimSpace at 1.
  assert (trimLeft (TrimSpace s) = TrimSpace s) as ->.
  { destruct (TrimSpace s) as [|c r]; [done|]. by apply trimLeft_nonspace. }
  by apply trimRight_fixed.
Qed.

Lemma parse_row_trim row : parse_row (TrimSpace row) = parse_row row.
Proof. unfold parse_row. by rewrite TrimSpace_idempotent. Qed.

Lemma parse_row_string row v : parse_row row = EStr v → v = TrimSpace row.
Proof.
  unfold parse_row.
  destruct (bool_decide (TrimSpace row = "") || HasPrefix (TrimSpace row) "#");
    [by intros [= <-]|].
  destruct (Fields (TrimSpace row)) as [|ip [|name names]]; try done; by intros [= <-].
Qed.

Lemma parse_row_not_slice row items : parse_row row ≠ ESlice items.
Proof.
  unfold parse_row.
  destruct (bool_decide (TrimSpace row = "") || HasPrefix (TrimSpace row) "#"); [done|].
  by destruct (Fields (TrimSpace row)) as [|ip [|name names]].
Qed.

Lemma Split_no_sep s sep : has_byte sep s = false → Split s sep = [s].
Proof.
  induction s as [|c r IH]; [done|]. simpl.
  intros [Hc Hr]%orb_false_iff. rewrite Hc. by rewrite IH.
Qed.

Lemma TrimSpace_no_byte c row : has_byte c row = false → has_byte c (TrimSpace row) = false.
Proof.
  destruct (TrimSpace_spec row) as ((a & b & Hrow & _) & _).
  intros H. rewrite Hrow, !has_byte_app in H.
  apply orb_false_iff in H as [_ H]. by apply orb_false_iff in H as [H _].
Qed.

(** X18: every entry that [ReadHosts] yields is read back, alone, from its
    own row as [RenderHosts] writes it (a string as it is; a Record as IP,
    tab, hostnames separated by single spaces). *)
Theorem ReadHosts_entry_reads_back (contents : string) (e : Entry) :
  e ∈ ReadHosts contents [] → ReadHosts (entry_row e) [] = [e].
Proof.
  rewrite ReadHosts_parse. intros (row & He & Hrow)%list_elem_of_fmap.
  apply Split_pieces in Hrow. rewrite ReadHosts_parse.
  destruct e as [v|host|items].
  - symmetry in He. pose proof (parse_row_string _ _ He) as ->. simpl.
    rewrite Split_no_sep by (by apply TrimSpace_no_byte). simpl.
    by rewrite parse_row_trim, He.
  - symmetry in He. apply parse_row_canonical_record in He. simpl.
    rewrite Split_no_sep by (by apply canonical_row_no_newline). simpl.
    by rewrite parse_row_canonical.
  - symmetry in He. by apply parse_row_not_slice in He.
Qed.

Lemma ReadHosts_entry_reads_back_witness :
  ReadHosts (entry_row (EHost (mkHost "10.0.0.5" ["foo.test"; "bar.test"]))) []
  = [EHost (mkHost "10.0.0.5" ["foo.test"; "bar.test"])].
Proof.
  apply (ReadHosts_entry_reads_back scenario).
  vm_compute. right. right. by left.
Defined.

Lemma Split_app_sep a b sep :
  Split (a +:+ String sep b) sep = Split a sep ++ Split b sep.
Proof.
  induction a as [|c r IH].
  - rewrite append_nil_l. simpl. by rewrite bool_decide_true.
  - rewrite append_cons. simpl. rewrite IH.
    pose proof (Split_nonempty r sep) as Hne.
    case_bool_decide; [done|]. by destruct (Split r sep).
Qed.

(** X22: [ReadHosts] reads line by line and appends to the slice it is
    given: the entries of two texts joined by a newline are the given
    entries, then the entries of the first text, then those of the second. *)
Theorem ReadHosts_line_by_line (a b : string) (hosts : list Entry) :
  ReadHosts (a +:+ NL +:+ b) hosts = hosts ++ ReadHosts a [] ++ ReadHosts b [].
Proof.
  unfold ReadHosts, NL. rewrite append_cons, append_nil_l, Split_app_sep.
  rewrite !ReadHosts_rows, fmap_app. done.
Qed.

(** ** Listing, and writing a file without comments *)

Lemma RenderHostsWithoutComments_fold buf hosts :
  foldl RenderHostsWithoutComments_step buf hosts = buf +:+ render_rows (records_of hosts).
Proof.
  revert buf. induction hosts as [|e hosts IH]; intros buf.
  - simpl. by rewrite append_nil_r.
  - simpl. rewrite IH. destruct e as [row|host|items]; try done.
    cbn [RenderHostsWithoutComments_step records_of]. unfold render_rows.
    rewrite fmap_cons. cbn [concat_strings render_entry]. by rewrite !append_assoc.
Qed.

Lemma RenderHostsWithoutComments_rows hosts :
  RenderHostsWithoutComments hosts = render_rows (records_of hosts).
Proof. unfold RenderHostsWithoutComments. by rewrite RenderHostsWithoutComments_fold. Qed.

Lemma records_of_fmap (records : list Host) : records_of (EHost <$> records) = records.
Proof.
  induction records as [|h records IH]; [done|].
  rewrite fmap_cons. cbn [records_of]. by rewrite IH.
Qed.

Lemma records_of_elem hosts host : host ∈ records_of hosts → EHost host ∈ hosts.
Proof.
  induction hosts as [|e hosts IH]; simpl; [by intros H%elem_of_nil|].
  destruct e as [row|h|items]; simpl.
  - intros H. right. by apply IH.
  - intros [->|H]%elem_of_cons; [by left|right; by apply IH].
  - intros H. right. by apply IH.
Qed.

Lemma RenderHosts_records (records : list Host) :
  RenderHosts (EHost <$> records) = render_rows records.
Proof. rewrite RenderHosts_concat. unfold render_rows. by rewrite <- list_fmap_compose. Qed.

Lemma RenderHosts_only_records hosts :
  only_records hosts → RenderHosts hosts = render_rows (records_of hosts).
Proof.
  intros Honly. rewrite RenderHosts_concat. unfold render_rows.
  induction hosts as [|e hosts IH]; [done|].
  rewrite fmap_cons. cbn [concat_strings].
  rewrite IH by (intros e' He'; apply Honly; by right).
  destruct (Honly e) as [->|[h ->]]; [by left|done|done].
Qed.

Lemma ReadHosts_render_rows (records : list Host) :
  (∀ host, host ∈ records → canonical host = true) →
  ReadHosts (render_rows records) [] = (EHost <$> records) ++ [EStr ""].
Proof.
  intros Hc. rewrite ReadHosts_parse, Split_render_rows by done.
  rewrite fmap_app. by rewrite parse_rows_canonical.
Qed.

Lemma RenderHosts_read_rows (records : list Host) :
  RenderHosts ((EHost <$> records) ++ [EStr ""]) = render_rows records.
Proof.
  rewrite RenderHosts_concat, fmap_app. simpl.
  rewrite concat_strings_snoc_empty. unfold render_rows.
  by rewrite <- list_fmap_compose.
Qed.

Lemma resolve_records hosts name :
  resolve ((EHost <$> records_of hosts) ++ [EStr ""]) name = resolve hosts name.
Proof.
  induction hosts as [|e hosts IH]; [done|].
  destruct e as [row|host|items]; cbn [records_of].
  - cbn [resolve]. exact IH.
  - rewrite fmap_cons, <- app_comm_cons. cbn [resolve]. by rewrite IH.
  - cbn [resolve]. exact IH.
Qed.

(** X19: [RenderHostsWithoutComments] writes what [RenderHosts] writes for
    the Records of the slice alone: no string entry reaches the listing. *)
Theorem RenderHostsWithoutComments_records_only (hosts : list Entry) :
  RenderHostsWithoutComments hosts = RenderHosts (EHost <$> records_of hosts).
Proof. by rewrite RenderHostsWithoutComments_rows, RenderHosts_records. Qed.

(** X20: the listing of a file, read as a hosts file, gives the Records of
    the file in order, followed by the empty string entry; listing the
    listing prints it again unchanged. *)
Theorem cmdList_reads_back (contents : string) :
  ReadHosts (cmdList contents) [] = (EHost <$> records_of (ReadHosts contents [])) ++ [EStr ""]
  ∧ cmdList (cmdList contents) = cmdList contents.
Proof.
  assert (Hread : ReadHosts (cmdList contents) []
                  = (EHost <$> records_of (ReadHosts contents [])) ++ [EStr ""]).
  { unfold cmdList. rewrite RenderHostsWithoutComments_rows.
    apply ReadHosts_render_rows. intros h Hh.
    apply (ReadHosts_canonical contents). by apply records_of_elem. }
  split; [done|]. unfold cmdList at 1. rewrite Hread.
  rewrite RenderHostsWithoutComments_rows, records_of_app, records_of_fmap. simpl.
  rewrite app_nil_r. unfold cmdList. by rewrite RenderHostsWithoutComments_rows.
Qed.

(** X21: when the file has no comment and no row of a single field, what
    [RenderHosts] writes for it is read back as the Records of the file
    followed by the empty string entry, and is written again unchanged:
    after one write, reading and writing change nothing more. *)
Theorem RenderHosts_stable_without_comments (contents : string) :
  only_records (ReadHosts contents []) →
  let written := RenderHosts (ReadHosts contents []) in
  ReadHosts written [] = (EHost <$> records_of (ReadHosts contents [])) ++ [EStr ""]
  ∧ RenderHosts (ReadHosts written []) = written.
Proof.
  intros Honly written. subst written.
  rewrite (RenderHosts_only_records _ Honly).
  assert (Hread : ReadHosts (render_rows (records_of (ReadHosts contents []))) []
                  = (EHost <$> records_of (ReadHosts contents [])) ++ [EStr ""]).
  { apply ReadHosts_render_rows. intros h Hh.
    apply (ReadHosts_canonical contents). by apply records_of_elem. }
  split; [done|]. by rewrite Hread, RenderHosts_read_rows.
Qed.

Lemma RenderHosts_stable_without_comments_witness :
  let written := RenderHosts (ReadHosts (" 1.1.1.1  a" +:+ NL +:+ NL +:+ "2.2.2.2 b c") []) in
  ReadHosts written []
  = (EHost <$> records_of (ReadHosts (" 1.1.1.1  a" +:+ NL +:+ NL +:+ "2.2.2.2 b c") []))
    ++ [EStr ""]
  ∧ RenderHosts (ReadHosts written []) = written.
Proof.
  apply RenderHosts_stable_without_comments.
  intros e He. vm_compute in He.
  repeat (apply elem_of_cons in He as [->|He]; [(by left) || (right; by eexists)|]).
  by apply elem_of_nil in He.
Defined.

Lemma addHost_entries hosts ip names hosts' e :
  addHost hosts ip names = Some hosts' → e ∈ hosts' → e ∈ hosts ∨ ∃ host, e = EHost host.
Proof.
  destruct (first_ip_or_none ip hosts) as [(l1 & h0 & l2 & -> & Hip & Hno)|Hno].
  - rewrite addHost_first by done. intros [= <-].
    rewrite !elem_of_app, !elem_of_cons. intros [H|[ -> |H]]; eauto.
  - rewrite addHost_absent by done. intros [= <-].
    rewrite elem_of_app, list_elem_of_singleton. intros [H| -> ]; eauto.
Qed.

Lemma canonical_intro ip names :
  token ip = true → HasPrefix ip "#"%char = false → names ≠ [] →
  (∀ n, n ∈ names → token n = true) → canonical (mkHost ip names) = true.
Proof.
  intros Hip Hp Hne Hnames. unfold canonical. simpl.
  rewrite Hip, Hp. rewrite bool_decide_false by done. simpl.
  apply forallb_forall. intros n Hn. apply Hnames. by apply list_elem_of_In.
Qed.

(** X23: on a file without comments and rows of a single field, adding
    hostnames and then resolving one of them on the file that was written
    prints the IP, when the IP and the hostnames are non-empty and free of
    white space, the IP does not start with '#', and no Record held the
    name before. *)
Theorem cmdAddHost_then_cmdResolve (contents ip : string) (hostnames : list string)
    (name : string) :
  only_records (ReadHosts contents []) →
  token ip = true → HasPrefix ip "#"%char = false →
  (∀ n, n ∈ hostnames → token n = true) →
  name ∈ hostnames → no_hostname name (ReadHosts contents []) →
  ∃ written, cmdAddHost contents ip hostnames = Some written
             ∧ cmdResolve written name = ip +:+ NL.
Proof.
  intros Honly Hip Hp Hnames Hname Hno.
  destruct (addHost_resolve_new _ ip hostnames name Hname Hno) as (hosts' & Hadd & Hres).
  exists (RenderHosts hosts'). split; [unfold cmdAddHost; by rewrite Hadd|].
  assert (Honly' : only_records hosts').
  { intros e He. destruct (addHost_entries _ _ _ _ _ Hadd He) as [Hin|Hrec]; [|by right].
    by apply Honly. }
  assert (Hcanon : ∀ h, h ∈ records_of hosts' → canonical h = true).
  { intros h Hh%records_of_elem.
    destruct (addHost_records _ _ _ _ _ Hadd Hh) as [Hin|(Hiph & old & Heq & Hold)].
    - by apply (ReadHosts_canonical contents).
    - destruct h as [ip' names']. simpl in *. subst ip' names'.
      assert (Holdtok : ∀ n, n ∈ old → token n = true).
      { destruct Hold as [->|(h0 & Hin0 & ->)]; [by intros n Hn%elem_of_nil|].
        apply ReadHosts_canonical, canonical_inv in Hin0 as (_ & _ & _ & Hall).
        intros n Hn. rewrite forallb_forall in Hall. apply Hall. by apply list_elem_of_In. }
      apply canonical_intro; [done|done| |].
      + apply dedup_first_nonempty. intros [_ ->]%app_eq_nil. by apply elem_of_nil in Hname.
      + intros n Hn%dedup_first_elem%elem_of_app. destruct Hn; auto. }
  rewrite (RenderHosts_only_records _ Honly').
  unfold cmdResolve. rewrite ReadHosts_render_rows by done.
  by rewrite resolve_records, Hres.
Qed.

Lemma cmdAddHost_then_cmdResolve_witness :
  ∃ written, cmdAddHost ("127.0.0.1 localhost" +:+ NL) "10.0.0.5" ["foo.test"; "bar.test"]
             = Some written
             ∧ cmdResolve written "bar.test" = "10.0.0.5" +:+ NL.
Proof.
  apply cmdAddHost_then_cmdResolve.
  - intros e He. vm_compute in He.
    repeat (apply elem_of_cons in He as [->|He]; [(by left) || (right; by eexists)|]).
    by apply elem_of_nil in He.
  - reflexivity.
  - reflexivity.
  - intros n Hn. repeat (apply elem_of_cons in Hn as [->|Hn]; [reflexivity|]).
    by apply elem_of_nil in Hn.
  - apply elem_of_cons. right. apply elem_of_cons. by left.
  - intros h Hh. vm_compute in Hh.
    repeat (apply elem_of_cons in Hh as [Hh|Hh]; [try discriminate Hh|]).
    + injection Hh as ->. simpl. intros H. apply list_elem_of_singleton in H. discriminate H.
    + by apply elem_of_nil in Hh.
Defined.

Lemma removeHostnames_entries names (hosts : list Entry) e :
  e ∈ omap (removeHostnames_entry names) hosts → e ∈ hosts ∨ ∃ host, e = EHost host.
Proof.
  intros (e0 & He0 & Hentry)%list_elem_of_omap.
  destruct e0 as [row|host|items]; simpl in Hentry.
  - injection Hentry as <-. by left.
  - case_bool_decide; [|done]. injection Hentry as <-. right. by eexists.
  - injection Hentry as <-. by left.
Qed.

(** X24: on a file without comments and rows of a single field, in which
    no row repeats a hostname, removing hostnames and then resolving one of
    them on the file that was written prints nothing. *)
Theorem cmdRemoveHost_then_cmdResolve (contents : string) (hostnames : list string)
    (name : string) :
  only_records (ReadHosts contents []) → records_distinct (ReadHosts contents []) →
  name ∈ hostnames →
  ∃ written, cmdRemoveHost contents hostnames = Some written
             ∧ cmdResolve written name = EmptyString.
Proof.
  intros Honly Hd Hname.
  set (hosts' := omap (removeHostnames_entry hostnames) (ReadHosts contents [])).
  exists (RenderHosts hosts').
  split; [unfold cmdRemoveHost; by rewrite removeHostnames_omap|].
  assert (Honly' : only_records hosts').
  { intros e He. destruct (removeHostnames_entries _ _ _ He) as [Hin|Hrec]; [|by right].
    by apply Honly. }
  assert (Hcanon : ∀ h, h ∈ records_of hosts' → canonical h = true).
  { intros h Hh%records_of_elem. unfold hosts' in Hh.
    rewrite <- removeHostnames_fold_omap in Hh.
    apply removeHostnames_fold_records in Hh as (h0 & Hin0 & Hip & Heq & Hne).
    apply ReadHosts_canonical, canonical_inv in Hin0 as (Htok & Hp & _ & Hall).
    destruct h as [ip names]. simpl in *. subst ip.
    apply canonical_intro; [done|done|done|].
    intros n Hn. rewrite forallb_forall in Hall. apply Hall, list_elem_of_In.
    rewrite Heq in Hn.
    apply (elem_of_sublist _ _ _ Hn), removeHostnames_names_sublist. }
  assert (Hno : no_hostname name hosts').
  { intros h Hh. unfold hosts' in Hh.
    apply removeHostnames_omap_records in Hh as (h0 & Hin & _ & Heq).
    rewrite Heq, removeHostnames_names_distinct by (by apply Hd).
    rewrite list_elem_of_filter. tauto. }
  rewrite (RenderHosts_only_records _ Honly').
  unfold cmdResolve. rewrite ReadHosts_render_rows by done.
  by rewrite resolve_records, resolve_absent.
Qed.

Lemma cmdRemoveHost_then_cmdResolve_witness :
  ∃ written, cmdRemoveHost ("10.0.0.5 foo.test bar.test" +:+ NL) ["bar.test"] = Some written
             ∧ cmdResolve written "bar.test" = EmptyString.
Proof.
  apply cmdRemoveHost_then_cmdResolve.
  - intros e He. vm_compute in He.
    repeat (apply elem_of_cons in He as [->|He]; [(by left) || (right; by eexists)|]).
    by apply elem_of_nil in He.
  - intros h Hh. vm_compute in Hh.
    repeat (apply elem_of_cons in Hh as [Hh|Hh]; [try discriminate Hh|]).
    + injection Hh as ->. simpl.
      repeat (apply NoDup_cons; split;
              [intros H; repeat (apply elem_of_cons in H as [H|H]; [discriminate H|]);
               by apply elem_of_nil in H|]).
      apply NoDup_nil_2.
    + by apply elem_of_nil in Hh.
  - apply elem_of_cons. by left.
Defined.

Lemma only_records_app l1 l2 : only_records (l1 ++ l2) → only_records l1.
Proof. intros H e He. apply H, elem_of_app. by left. Qed.

Lemma no_ip_records ip hosts :
  no_ip ip hosts → no_ip ip ((EHost <$> records_of hosts) ++ [EStr ""]).
Proof.
  intros Hno h Hh. apply elem_of_app in Hh as [Hh|Hh].
  - apply list_elem_of_fmap in Hh as (h' & [= <-] & Hin). by apply Hno, records_of_elem.
  - apply list_elem_of_singleton in Hh. discriminate Hh.
Qed.

(** X25: on a file without comments and rows of a single field, the file
    that [cmdRemoveIP] writes holds no Record of the IP. *)
Theorem cmdRemoveIP_written_without_ip (contents ip : string) :
  only_records (ReadHosts contents []) →
  ∃ written, cmdRemoveIP contents ip = Some written ∧ no_ip ip (ReadHosts written []).
Proof.
  intros Honly. unfold cmdRemoveIP.
  assert (Hcanon : ∀ l, (∀ e, e ∈ l → e ∈ ReadHosts contents []) →
            ∀ h, h ∈ records_of l → canonical h = true).
  { intros l Hl h Hh%records_of_elem. by apply (ReadHosts_canonical contents), Hl. }
  destruct (first_ip_or_none ip (ReadHosts contents []))
    as [(l1 & host & l2 & Heq & Hip & Hno)|Hno].
  - rewrite Heq in *. rewrite removeIP_first_render by done.
    eexists. split; [done|].
    rewrite (RenderHosts_only_records _ (only_records_app _ _ Honly)).
    rewrite ReadHosts_render_rows.
    + by apply no_ip_records.
    + apply Hcanon. intros e He. apply elem_of_app. by left.
  - rewrite removeIP_absent by done. eexists. split; [done|].
    rewrite (RenderHosts_only_records _ Honly).
    rewrite ReadHosts_render_rows; [by apply no_ip_records|by apply Hcanon].
Qed.

Lemma cmdRemoveIP_written_without_ip_witness :
  ∃ written, cmdRemoveIP ("127.0.0.1 localhost" +:+ NL +:+ "10.0.0.5 foo.test" +:+ NL)
               "127.0.0.1" = Some written
             ∧ no_ip "127.0.0.1" (ReadHosts written []).
Proof.
  apply cmdRemoveIP_written_without_ip.
  intros e He. vm_compute in He.
  repeat (apply elem_of_cons in He as [->|He]; [(by left) || (right; by eexists)|]).
  by apply elem_of_nil in He.
Defined.

(** X26: a string entry that [ReadHosts] yields is a trimmed row without a
    newline that is empty, starts with '#' or has fewer than two fields:
    no string entry could be read as a Record. *)
Theorem ReadHosts_string_entries (contents : string) (v : string) :
  EStr v ∈ ReadHosts contents [] →
  TrimSpace v = v ∧ has_byte "010"%char v = false
  ∧ (v = EmptyString ∨ HasPrefix v "#"%char = true ∨ length (Fields v) < 2).
Proof.
  rewrite ReadHosts_parse. intros (row & He & Hrow)%list_elem_of_fmap.
  apply Split_pieces in Hrow. symmetry in He.
  pose proof (parse_row_string _ _ He) as ->.
  split; [apply TrimSpace_idempotent|]. split; [by apply TrimSpace_no_byte|].
  unfold parse_row in He.
  destruct (bool_decide (TrimSpace row = "")) eqn:Hempty.
  { left. by apply bool_decide_eq_true in Hempty. }
  destruct (HasPrefix (TrimSpace row) "#") eqn:Hp; [by right; left|].
  simpl in He. right. right.
  destruct (Fields (TrimSpace row)) as [|ip [|name names]]; simpl; [lia|lia|done].
Qed.

Lemma ReadHosts_string_entries_witness :
  TrimSpace "# comment" = "# comment" ∧ has_byte "010"%char "# comment" = false
  ∧ ("# comment" = EmptyString ∨ HasPrefix "# comment" "#"%char = true
     ∨ length (Fields "# comment") < 2).
Proof.
  apply (ReadHosts_string_entries scenario).
  vm_compute. by left.
Defined.
